(** * YawOptimizationWindRoseParallel.optimize: a shallow embedding

    Source: floris/tools/optimization/yaw_optimization/
            yaw_optimizer_wind_rose_mpi4py.py

    The method is an orchestration routine: it imports the worker-pool
    runtime, prints a banner, forces the baseline flag of the wrapped
    optimizer, maps the per-case optimizer over the ambient conditions
    through an [MPIPoolExecutor] and concatenates the per-case frames.
    The embedding is a state-and-exception monad over a [World] that holds
    what the method can observe or change: the shared optimizer object,
    standard output, the number of live worker pools and a log of what was
    handed to the workers. *)

From Stdlib Require Import Floats.
From stdpp Require Import gmap strings list fin_maps pretty.

Open Scope string_scope.
Open Scope list_scope.

(** ** Values *)

(** Python exceptions that can leave [optimize].  [Exception cls msg]
    stands for whatever the per-case optimizer raises inside a worker.
    The text of the [TypeError] of a failed [iter] differs between
    interpreter versions and is left out. *)
Inductive exn : Type :=
  | ImportError (msg : string)
  | TypeError
  | Exception (cls msg : string).

(** A numpy array of dtype float: zero-dimensional (a scalar wrapped in
    an array) or one-dimensional. *)
Inductive ndarray : Type :=
  | Arr0 (x : float)
  | Arr1 (xs : list float).

(** [np.array(xs, dtype=float)] on a sequence of numbers. *)
Definition np_array (xs : list float) : ndarray := Arr1 xs.

(** [np.array(v, dtype=float)] on an attribute that is a sequence or
    [None]: numpy turns [None] into the scalar nan, a 0-d array. *)
Definition np_array_opt (v : option (list float)) : ndarray :=
  match v with
  | None => Arr0 nan
  | Some xs => Arr1 xs
  end.

(** [iter(a)]: a 0-d array is not iterable. *)
Definition nd_iter (a : ndarray) : exn + list float :=
  match a with
  | Arr0 _ => inl TypeError
  | Arr1 xs => inr xs
  end.

(** ** Data frames *)

(** A cell of a frame. *)
Inductive cell : Type :=
  | CNum (x : float)
  | CVec (xs : list float)
  | CNull.

(** A row maps column names to cells; a frame is the list of its rows,
    each with its index label. *)
Record DataFrame : Type := mkFrame { frame_rows : list (Z * gmap string cell) }.

(** [pd.DataFrame()] *)
Definition pd_DataFrame : DataFrame := mkFrame [].

(** [df.columns], as a set: the columns the rows of the frame carry.
    The order of the columns is not modelled. *)
Definition df_columns (df : DataFrame) : gset string :=
  ⋃ ((fun r => dom r.2) <$> frame_rows df).

(** A row widened to the columns [cols]: the cells it lacks are NaN. *)
Definition fill_row (cols : gset string) (r : Z * gmap string cell)
    : Z * gmap string cell :=
  (r.1, r.2 ∪ gset_to_gmap (CNum nan) cols).

(** [df.append(other)]: the rows of [other] after those of [df], index
    labels kept.  The result has the columns of both frames; a cell a row
    has no value for is NaN. *)
Definition df_append (df other : DataFrame) : DataFrame :=
  let cols := df_columns df ∪ df_columns other in
  mkFrame ((fill_row cols <$> frame_rows df) ++ (fill_row cols <$> frame_rows other)).

(** [df.reset_index(drop=True)]: labels replaced by 0, 1, ... *)
Definition reset_index (df : DataFrame) : DataFrame :=
  mkFrame (zip (Z.of_nat <$> seq 0 (length (frame_rows df)))
               (snd <$> frame_rows df)).

Definition df_len (df : DataFrame) : nat := length (frame_rows df).
Definition df_index (df : DataFrame) : list Z := fst <$> frame_rows df.
Definition df_row (df : DataFrame) (i : nat) : option (gmap string cell) :=
  snd <$> frame_rows df !! i.

(** [pd.notnull] on a cell. *)
Definition notnull (c : cell) : bool :=
  match c with
  | CNum x => negb (PrimFloat.is_nan x)
  | CVec _ => true
  | CNull => false
  end.

(** ** Objects and the world *)

(** The wrapped optimizer object ([yaw_optimization_obj]).  [optimize]
    touches one attribute of it. *)
Record YawOpt : Type := mkYawOpt { calc_init_power : bool }.

(** The attributes of [self] that are plain values.  [self.yaw_opt] is a
    reference to the caller's optimizer object, which therefore lives in
    the [World], shared between the caller and [self]. *)
Record Self : Type := mkSelf {
  wd_array : list float;
  ws_array : list float;
  ti_array : option (list float);
  minimum_ws : float;
  maximum_ws : float;
  verbose : bool
}.

(** What the worker pool was asked to do and did. *)
Inductive event : Type :=
  | EvAcquire
  | EvSubmit (i : nat) (snapshot : YawOpt) (wd ws ti : float)
  | EvCall (i : nat)
  | EvRelease.

Record World : Type := mkWorld {
  optimizer : YawOpt;
  stdout : list string;
  live_pools : nat;
  log : list event
}.

(** What the runtime decides: whether [mpi4py.futures] can be imported,
    and the order in which the workers complete their tasks (task
    indices).  A task that is absent is one its worker never finishes.
    The cancellation of a task no worker has started yet is not
    modelled. *)
Record Runtime : Type := mkRuntime {
  mpi4py_importable : bool;
  completion_order : list nat
}.

(** ** The monad: state, exceptions and blocking *)

Inductive outcome (A : Type) : Type :=
  | Ret (a : A)
  | Raise (e : exn)
  | Block.
Arguments Ret {A} a.
Arguments Raise {A} e.
Arguments Block {A}.

Definition M (A : Type) : Type := World -> outcome A * World.

Definition ret {A} (a : A) : M A := fun w => (Ret a, w).
Definition raise {A} (e : exn) : M A := fun w => (Raise e, w).
Definition block {A} : M A := fun w => (Block, w).

Definition bind {A B} (m : M A) (k : A -> M B) : M B := fun w =>
  match m w with
  | (Ret a, w') => k a w'
  | (Raise e, w') => (Raise e, w')
  | (Block, w') => (Block, w')
  end.

Notation "x <- m ;; k" := (bind m (fun x => k))
  (at level 100, m at next level, right associativity).
Notation "m ;;; k" := (bind m (fun _ => k))
  (at level 100, right associativity).

Definition lift {A} (r : exn + A) : M A :=
  match r with
  | inl e => raise e
  | inr a => ret a
  end.

(** [try: m except ImportError: h] *)
Definition except_ImportError {A} (m : M A) (h : M A) : M A := fun w =>
  match m w with
  | (Raise (ImportError _), w') => h w'
  | r => r
  end.

Definition print (line : string) : M unit := fun w =>
  (Ret tt, mkWorld (optimizer w) (stdout w ++ [line]) (live_pools w) (log w)).

Definition emit (e : event) : M unit := fun w =>
  (Ret tt, mkWorld (optimizer w) (stdout w) (live_pools w) (log w ++ [e])).

Definition get_optimizer : M YawOpt := fun w => (Ret (optimizer w), w).

(** [self.yaw_opt.calc_init_power = b] *)
Definition set_calc_init_power (b : bool) : M unit := fun w =>
  (Ret tt, mkWorld (mkYawOpt b) (stdout w) (live_pools w) (log w)).

(** ** The worker pool *)

(** [MPIPoolExecutor()] and its [__enter__]. *)
Definition pool_acquire : M unit := fun w =>
  (Ret tt, mkWorld (optimizer w) (stdout w) (S (live_pools w)) (log w ++ [EvAcquire])).

(** The pool is shut down. *)
Definition pool_release : M unit := fun w =>
  (Ret tt, mkWorld (optimizer w) (stdout w) (pred (live_pools w)) (log w ++ [EvRelease])).

(** Whether the call of task [i] is recorded in [evs]. *)
Definition completed (evs : list event) (i : nat) : bool :=
  existsb (fun e => match e with
                    | EvCall j => bool_decide (j = i)
                    | _ => false
                    end) evs.

(** Whether some task submitted in [evs] has not completed. *)
Definition outstanding (evs : list event) : bool :=
  existsb (fun e => match e with
                    | EvSubmit i _ _ _ _ => negb (completed evs i)
                    | _ => false
                    end) evs.

(** [with MPIPoolExecutor() as executor: body].  The exit handler runs
    when the body returns and when it raises; a body that blocks never
    reaches it.  [__exit__] is [shutdown(wait=True)]: it waits for the
    tasks handed to this pool, so the call does not end while one of
    them is outstanding. *)
Definition with_MPIPoolExecutor {A} (body : M A) : M A := fun w =>
  match pool_acquire w with
  | (_, w1) =>
      match body w1 with
      | (Block, w2) => (Block, w2)
      | (r, w2) =>
          if outstanding (drop (length (log w1)) (log w2)) then (Block, w2)
          else (r, snd (pool_release w2))
      end
  end.

Abbreviation task := (float * float * float)%type.

(** [zip(a, b, c)], which stops at the shortest argument. *)
Fixpoint zip3 (a b c : list float) : list task :=
  match a, b, c with
  | x :: a', y :: b', z :: c' => (x, y, z) :: zip3 a' b' c'
  | _, _, _ => []
  end.

Section Executor.

(** The function handed to the pool, already applied to the pickled
    copy of the object it is bound to. *)
Variable fn : float -> float -> float -> exn + DataFrame.

(** The futures are submitted in input order. *)
Fixpoint submit_all (snapshot : YawOpt) (i : nat) (tasks : list task) : M unit :=
  match tasks with
  | [] => ret tt
  | (wd, ws, ti) :: rest =>
      emit (EvSubmit i snapshot wd ws ti) ;;;
      submit_all snapshot (S i) rest
  end.

(** The workers complete tasks in the order the runtime decides; each
    submitted task runs at most once and its result is kept under its
    submission index. *)
Fixpoint run_workers (tasks : list task) (sched : list nat)
    (done : gmap nat (exn + DataFrame)) : M (gmap nat (exn + DataFrame)) :=
  match sched with
  | [] => ret done
  | i :: sched' =>
      match tasks !! i, done !! i with
      | Some (wd, ws, ti), None =>
          emit (EvCall i) ;;;
          run_workers tasks sched' (<[i := fn wd ws ti]> done)
      | _, _ => run_workers tasks sched' done
      end
  end.

(** [executor.map(fn, a, b, c)]: the arguments are zipped (which calls
    [iter] on each), every tuple is submitted, and the result iterator
    yields the futures' results by submission index.  [None] in the
    iterator is a future that never completes.  The log lists the
    submissions before the worker calls; how the two interleave in time
    is up to the runtime, and nothing below rests on it. *)
Definition executor_map (sched : list nat) (a b c : ndarray)
    : M (list (option (exn + DataFrame))) :=
  xs <- lift (nd_iter a) ;;
  ys <- lift (nd_iter b) ;;
  zs <- lift (nd_iter c) ;;
  let tasks := zip3 xs ys zs in
  snapshot <- get_optimizer ;;
  submit_all snapshot 0 tasks ;;;
  done <- run_workers tasks sched ∅ ;;
  ret ((fun i => done !! i) <$> seq 0 (length tasks)).

End Executor.

(** [for df_one_case in it: df_opt = df_opt.append(df_one_case)] *)
Fixpoint for_each_case (it : list (option (exn + DataFrame))) (df_opt : DataFrame)
    : M DataFrame :=
  match it with
  | [] => ret df_opt
  | None :: _ => block
  | Some (inl e) :: _ => raise e
  | Some (inr df_one_case) :: rest =>
      for_each_case rest (df_append df_opt df_one_case)
  end.

(** ** optimize *)

Definition err_msg : string :=
  "It appears you do not have mpi4py installed. "
  +:+ "Please refer to https://mpi4py.readthedocs.io/ for "
  +:+ "guidance on how to properly install the module.".

(** [from mpi4py.futures import MPIPoolExecutor] *)
Definition import_MPIPoolExecutor (rt : Runtime) : M unit :=
  if mpi4py_importable rt then ret tt
  else raise (ImportError "No module named 'mpi4py'").

Definition banner : string :=
  "=====================================================".

(** [print(s, n)] for an integer [n]: the arguments separated by a space. *)
Definition print2 (s : string) (n : nat) : M unit :=
  print (s +:+ " " +:+ pretty n).

Section Optimize.

(** [YawOptimizationWindRose._optimize_one_case], inherited from the
    base class (yaw_optimizer_wind_rose_serial.py).  A worker runs it on
    its own pickled copy of the object, hence on the copies of [self] and
    of the optimizer taken when the task was submitted. *)
Variable _optimize_one_case :
  Self -> YawOpt -> float -> float -> float -> exn + DataFrame.

Definition optimize (rt : Runtime) (self : Self) : M DataFrame :=
  except_ImportError (import_MPIPoolExecutor rt)
                     (raise (ImportError err_msg)) ;;;
  print banner ;;;
  print "Optimizing wake redirection control in parallel using mpi4py..." ;;;
  print2 "Number of wind conditions to optimize = " (length (wd_array self)) ;;;
  print banner ;;;
  (* Enforce calculation of baseline conditions *)
  set_calc_init_power true ;;;
  (* Process all wind conditions in parallel using mpi4py *)
  let df_opt := pd_DataFrame in
  df_opt <- with_MPIPoolExecutor (
    snapshot <- get_optimizer ;;
    it <- executor_map (_optimize_one_case self snapshot)
                       (completion_order rt)
                       (np_array (wd_array self))
                       (np_array (ws_array self))
                       (np_array_opt (ti_array self)) ;;
    for_each_case it df_opt) ;;
  let df_opt := reset_index df_opt in
  ret df_opt.

End Optimize.

(** * Vocabulary of the properties *)

(** An event written by [executor.map] on behalf of the pool: a
    submission carrying the optimizer copy [o], or a worker call. *)
Definition map_event (o : YawOpt) (e : event) : Prop :=
  match e with
  | EvSubmit _ s _ _ _ => s = o
  | EvCall _ => True
  | _ => False
  end.

(** [w'] differs from [w] by map events only. *)
Record map_frame (w w' : World) : Prop := mkMapFrame {
  mf_optimizer : optimizer w' = optimizer w;
  mf_stdout : stdout w' = stdout w;
  mf_pools : live_pools w' = live_pools w;
  mf_log : exists evs, log w' = log w ++ evs /\ Forall (map_event (optimizer w)) evs
}.

(** The per-case function on a zipped tuple. *)
Definition apply_task (fn : float -> float -> float -> exn + DataFrame)
    (t : task) : exn + DataFrame :=
  let '(wd, ws, ti) := t in fn wd ws ti.

(** What the future of index [i] holds once the workers are through
    [sched]: the result of its task if the index was scheduled. *)
Definition future_result (fn : float -> float -> float -> exn + DataFrame)
    (tasks : list task) (sched : list nat) (i : nat) : option (exn + DataFrame) :=
  if decide (i ∈ sched) then apply_task fn <$> tasks !! i else None.

(** The collecting loop as a function of the iterator alone. *)
Fixpoint collect (it : list (option (exn + DataFrame))) (df_opt : DataFrame)
    : outcome DataFrame :=
  match it with
  | [] => Ret df_opt
  | None :: _ => Block
  | Some (inl e) :: _ => Raise e
  | Some (inr d) :: rest => collect rest (df_append df_opt d)
  end.

(** The lines [optimize] prints. *)
Definition progress_lines (self : Self) : list string :=
  [ banner;
    "Optimizing wake redirection control in parallel using mpi4py...";
    "Number of wind conditions to optimize = " +:+ " "
      +:+ pretty (length (wd_array self));
    banner ].

(** The iterator [executor.map] hands to the loop of [optimize]. *)
Definition result_iterator
    (f : Self -> YawOpt -> float -> float -> float -> exn + DataFrame)
    (rt : Runtime) (self : Self) (tis : list float)
    : list (option (exn + DataFrame)) :=
  let tasks := zip3 (wd_array self) (ws_array self) tis in
  future_result (f self (mkYawOpt true)) tasks (completion_order rt)
    <$> seq 0 (length tasks).

(** Whether one of the first [n] tasks is missing from the completion
    order [sched]. *)
Definition hung (sched : list nat) (n : nat) : bool :=
  existsb (fun i => negb (bool_decide (i ∈ sched))) (seq 0 n).

(** The outcome of [optimize] once the import succeeded. *)
Definition optimize_outcome
    (f : Self -> YawOpt -> float -> float -> float -> exn + DataFrame)
    (rt : Runtime) (self : Self) : outcome DataFrame :=
  match ti_array self with
  | None => Raise TypeError
  | Some tis =>
      let n := length (zip3 (wd_array self) (ws_array self) tis) in
      match collect (result_iterator f rt self tis) pd_DataFrame with
      | Ret df =>
          if hung (completion_order rt) n then Block else Ret (reset_index df)
      | Raise e => if hung (completion_order rt) n then Block else Raise e
      | Block => Block
      end
  end.

(** A row is carried by another when the label is the same and every
    cell of the first is a cell of the second. *)
Definition carried (r r' : Z * gmap string cell) : Prop :=
  r.1 = r'.1 /\ r.2 ⊆ r'.2.

(** The rows one case contributes. *)
Definition case_rows (fn : float -> float -> float -> exn + DataFrame)
    (t : task) : list (Z * gmap string cell) :=
  match apply_task fn t with
  | inr d => frame_rows d
  | inl _ => []
  end.

(** ** The contract of the per-case optimizer *)

(** A row reports the condition it was computed for. *)
Definition condition_row (t : task) (row : gmap string cell) : Prop :=
  let '(wd, ws, ti) := t in
  row !! "wd" = Some (CNum wd) /\ row !! "ws" = Some (CNum ws) /\
  row !! "ti" = Some (CNum ti).

(** Modelled from the spec: [_optimize_one_case] belongs to the base
    class [YawOptimizationWindRose] (yaw_optimizer_wind_rose_serial.py),
    whose code is missing.  Per the data model (per-case result row) a
    successful case yields a frame of exactly one row. *)
Definition one_row_per_case
    (f : Self -> YawOpt -> float -> float -> float -> exn + DataFrame)
    (self : Self) : Prop :=
  forall o wd ws ti d, f self o wd ws ti = inr d -> length (frame_rows d) = 1.

(** Modelled from the spec: the row of a successful case of
    [_optimize_one_case] (base class [YawOptimizationWindRose], whose
    code is missing) carries the ws, wd and ti of the condition it was
    given. *)
Definition reports_condition
    (f : Self -> YawOpt -> float -> float -> float -> exn + DataFrame)
    (self : Self) : Prop :=
  forall o wd ws ti d, f self o wd ws ti = inr d ->
    Forall (fun r => condition_row (wd, ws, ti) r.2) (frame_rows d).

Definition baseline_columns : list string :=
  ["power_baseline"; "power_baseline_weighted"; "turbine_power_baseline"].

(** The baseline columns are present and non-null in a row. *)
Definition baseline_present (row : gmap string cell) : bool :=
  forallb (fun c => match row !! c with
                    | Some v => notnull v
                    | None => false
                    end) baseline_columns.

(** Modelled from the spec: [_optimize_one_case] (base class
    [YawOptimizationWindRose], whose code is missing) computes the
    baseline powers when the [calc_init_power] flag of its optimizer is
    set. *)
Definition computes_baseline
    (f : Self -> YawOpt -> float -> float -> float -> exn + DataFrame)
    (self : Self) : Prop :=
  forall o wd ws ti d, calc_init_power o = true -> f self o wd ws ti = inr d ->
    Forall (fun r => baseline_present r.2 = true) (frame_rows d).

(** No case of the sweep raises. *)
Definition all_cases_succeed
    (f : Self -> YawOpt -> float -> float -> float -> exn + DataFrame)
    (self : Self) (tis : list float) : Prop :=
  forall t, t ∈ zip3 (wd_array self) (ws_array self) tis ->
    exists d, apply_task (f self (mkYawOpt true)) t = inr d.

(** Every submitted task is completed by some worker. *)
Definition all_complete (rt : Runtime) (n : nat) : Prop :=
  forall i, i < n -> i ∈ completion_order rt.

(** The arrays handed to the constructor have one length. *)
Definition equal_lengths (self : Self) : Prop :=
  length (ws_array self) = length (wd_array self) /\
  match ti_array self with
  | Some tis => length tis = length (wd_array self)
  | None => True
  end.

Definition is_call (e : event) : bool :=
  match e with
  | EvCall _ => true
  | _ => false
  end.

(** Number of per-case optimizer calls recorded in a log. *)
Definition call_count (l : list event) : nat := length (List.filter is_call l).

(** ** A stand-in per-case optimizer

    It reports the condition it was given and, when the baseline flag of
    its copy of the optimizer is set, the baseline powers.  A wind speed
    of exactly 13 makes it raise. *)
Definition fake_row (opt : YawOpt) (wd ws ti : float) : gmap string cell :=
  let base : gmap string cell :=
    {[ "ws" := CNum ws; "wd" := CNum wd; "ti" := CNum ti;
       "power_opt" := CNum 1100; "yaw_angles" := CVec [5; 0]%float ]} in
  if calc_init_power opt
  then <["power_baseline" := CNum 1000]>
       (<["power_baseline_weighted" := CNum 1000]>
       (<["turbine_power_baseline" := CVec [600; 400]%float]> base))
  else base.

Definition fake_one_case (self : Self) (opt : YawOpt) (wd ws ti : float)
    : exn + DataFrame :=
  if PrimFloat.eqb ws 13 then inl (Exception "RuntimeError" "solver diverged")
  else inr (mkFrame [(7%Z, fake_row opt wd ws ti)]).

Definition world0 : World := mkWorld (mkYawOpt false) [] 0 [].

Definition self3 : Self :=
  mkSelf [270; 280; 290]%float [8; 9; 10]%float (Some [0.0625; 0.125; 0.25]%float)
         0 25 false.

Definition self_no_ti : Self :=
  mkSelf [270; 280]%float [8; 9]%float None 0 25 true.

Definition self5 : Self :=
  mkSelf [270; 275; 280; 285; 290]%float [8; 9; 10; 13; 11]%float
         (Some [0.0625; 0.0625; 0.125; 0.125; 0.25]%float) 0 25 true.

(** ** Vocabulary of the further properties *)

(** The submissions of a list of tasks, numbered from [i], each carrying
    the optimizer copy [o]. *)
Fixpoint submissions (o : YawOpt) (i : nat) (tasks : list task) : list event :=
  match tasks with
  | [] => []
  | (wd, ws, ti) :: rest => EvSubmit i o wd ws ti :: submissions o (S i) rest
  end.

(** What the exit handler of the [with] block adds to the log: nothing
    when the body never ends. *)
Definition release_events (r : outcome DataFrame) : list event :=
  match r with
  | Block => []
  | _ => [EvRelease]
  end.

(** The number of pools left live after a call that began with [n]. *)
Definition pools_after (r : outcome DataFrame) (n : nat) : nat :=
  match r with
  | Block => S n
  | _ => n
  end.

(** A stand-in whose frames differ in size and in columns: two rows
    that report the wind speed alone for a wind speed of 8, one full
    row otherwise. *)
Definition fake_frames (self : Self) (opt : YawOpt) (wd ws ti : float)
    : exn + DataFrame :=
  if PrimFloat.eqb ws 8
  then inr (mkFrame [(0%Z, {[ "ws" := CNum ws ]}); (1%Z, {[ "ws" := CNum ws ]})])
  else inr (mkFrame [(0%Z, fake_row opt wd ws ti)]).

(** A stand-in with two ways to fail: a wind speed of 13 and a wind
    speed of 14 raise different exceptions. *)
Definition fake_two_errors (self : Self) (opt : YawOpt) (wd ws ti : float)
    : exn + DataFrame :=
  if PrimFloat.eqb ws 13 then inl (Exception "RuntimeError" "solver diverged")
  else if PrimFloat.eqb ws 14 then inl (Exception "ValueError" "bad wind speed")
  else inr (mkFrame [(7%Z, fake_row opt wd ws ti)]).

(** A sweep whose cases 1 and 2 both fail. *)
Definition self_two_errors : Self :=
  mkSelf [270; 280; 290]%float [8; 13; 14]%float (Some [0.0625; 0.125; 0.25]%float)
         0 25 true.

(** A sweep whose arrays differ in length, and an empty one. *)
Definition self_ragged : Self :=
  mkSelf [270; 280; 290]%float [8; 9]%float (Some [0.0625; 0.125; 0.25]%float)
         0 25 true.

Definition self_empty : Self := mkSelf [] [] (Some []) 0 25 true.

(** * Properties *)

(** ** Effects of the parts on the world *)

Lemma map_frame_refl w : map_frame w w.
Proof.
  split; try reflexivity. exists []. split; [by rewrite app_nil_r | constructor].
Qed.

Lemma map_frame_trans w1 w2 w3 :
  map_frame w1 w2 -> map_frame w2 w3 -> map_frame w1 w3.
Proof.
  intros [Ho1 Hs1 Hp1 (e1 & Hl1 & Hf1)] [Ho2 Hs2 Hp2 (e2 & Hl2 & Hf2)].
  split; try congruence.
  exists (e1 ++ e2). split.
  - by rewrite Hl2, Hl1, app_assoc.
  - apply Forall_app. split; [done | by rewrite <- Ho1].
Qed.

Lemma map_frame_emit w e :
  map_event (optimizer w) e -> map_frame w (snd (emit e w)).
Proof.
  intros He. split; try reflexivity.
  exists [e]. split; [reflexivity | by constructor].
Qed.

Lemma submit_all_spec snapshot tasks : forall i w,
  snapshot = optimizer w ->
  exists w', submit_all snapshot i tasks w = (Ret tt, w') /\ map_frame w w'.
Proof.
  induction tasks as [|[[wd ws] ti] rest IH]; intros i w Hs; simpl.
  - exists w. split; [reflexivity | apply map_frame_refl].
  - unfold bind at 1. simpl.
    destruct (IH (S i) (snd (emit (EvSubmit i snapshot wd ws ti) w)) Hs)
      as (w' & Hrun & Hfr).
    exists w'. split; [exact Hrun |].
    eapply map_frame_trans; [| exact Hfr].
    by apply map_frame_emit.
Qed.

Lemma run_workers_spec fn tasks : forall sched done w,
  exists done' w',
    run_workers fn tasks sched done w = (Ret done', w') /\
    map_frame w w' /\
    forall i, done' !! i =
      match done !! i with
      | Some v => Some v
      | None => future_result fn tasks sched i
      end.
Proof.
  induction sched as [|i sched IH]; intros done w; cbn [run_workers].
  - exists done, w. split; [reflexivity |]. split; [apply map_frame_refl |].
    intros i. unfold future_result.
    destruct (done !! i); [done |]. case_decide; [set_solver | done].
  - assert (Hskip : forall j, j <> i ->
              future_result fn tasks (i :: sched) j = future_result fn tasks sched j).
    { intros j Hj. unfold future_result.
      destruct (decide (j ∈ i :: sched)) as [Hin|Hin], (decide (j ∈ sched));
        try done; rewrite elem_of_cons in Hin; tauto. }
    destruct (tasks !! i) as [[[wd ws] ti]|] eqn:Ht;
      [destruct (done !! i) as [v|] eqn:Hd |].
    + destruct (IH done w) as (done' & w' & Hrun & Hfr & Hlk).
      exists done', w'. split; [done |]. split; [done |].
      intros j. rewrite Hlk. destruct (decide (j = i)) as [->|Hj].
      * by rewrite Hd.
      * destruct (done !! j); [done | by rewrite Hskip].
    + unfold bind at 1. simpl.
      destruct (IH (<[i := fn wd ws ti]> done) (snd (emit (EvCall i) w)))
        as (done' & w' & Hrun & Hfr & Hlk).
      exists done', w'. split; [exact Hrun |]. split.
      { eapply map_frame_trans; [| exact Hfr]. by apply map_frame_emit. }
      intros j. rewrite Hlk. destruct (decide (j = i)) as [->|Hj].
      * rewrite lookup_insert_eq, Hd. unfold future_result.
        destruct (decide (i ∈ i :: sched)) as [_|Hn]; [| set_solver].
        by rewrite Ht.
      * rewrite lookup_insert_ne by done.
        destruct (done !! j); [done | by rewrite Hskip].
    + destruct (IH done w) as (done' & w' & Hrun & Hfr & Hlk).
      exists done', w'. split; [done |]. split; [done |].
      intros j. rewrite Hlk. destruct (decide (j = i)) as [->|Hj].
      * destruct (done !! i); [done |]. unfold future_result.
        rewrite Ht. by destruct (decide (i ∈ i :: sched)), (decide (i ∈ sched)).
      * destruct (done !! j); [done | by rewrite Hskip].
Qed.

(** [executor.map] on three one-dimensional arrays never raises or blocks
    by itself; its iterator holds, at position [i], the future of the
    [i]-th zipped tuple. *)
Lemma executor_map_spec fn sched xs ys zs w :
  exists it w',
    executor_map fn sched (Arr1 xs) (Arr1 ys) (Arr1 zs) w = (Ret it, w') /\
    map_frame w w' /\
    it = future_result fn (zip3 xs ys zs) sched <$> seq 0 (length (zip3 xs ys zs)).
Proof.
  unfold executor_map, bind, lift, nd_iter, ret, get_optimizer. simpl.
  destruct (submit_all_spec (optimizer w) (zip3 xs ys zs) 0 w eq_refl)
    as (w1 & -> & Hf1).
  destruct (run_workers_spec fn (zip3 xs ys zs) sched ∅ w1)
    as (done' & w2 & -> & Hf2 & Hlk).
  eexists _, w2. split; [reflexivity |].
  split; [by eapply map_frame_trans |].
  apply list_fmap_ext. intros k i _.
  by rewrite Hlk, lookup_empty.
Qed.

(** A zero-dimensional third argument makes [zip] raise before anything
    is submitted. *)
Lemma executor_map_0d fn sched xs ys z w :
  executor_map fn sched (Arr1 xs) (Arr1 ys) (Arr0 z) w = (Raise TypeError, w).
Proof. reflexivity. Qed.

Lemma for_each_case_collect it : forall df w,
  for_each_case it df w = (collect it df, w).
Proof.
  induction it as [|[[e|d]|] it IH]; intros df w; simpl; try reflexivity.
  apply IH.
Qed.

(** ** The log of the pool, event by event *)

Lemma submit_all_log o tasks : forall i w,
  submit_all o i tasks w
  = (Ret tt, mkWorld (optimizer w) (stdout w) (live_pools w)
                     (log w ++ submissions o i tasks)).
Proof.
  induction tasks as [|[[wd ws] ti] rest IH]; intros i w.
  - destruct w. cbn. by rewrite app_nil_r.
  - cbn [submit_all submissions]. unfold bind at 1, emit at 1.
    rewrite IH. cbn [optimizer stdout live_pools log].
    by rewrite <- app_assoc.
Qed.

(** The workers call the per-case optimizer for the scheduled indices
    that name a submitted task not yet done, once each. *)
Lemma run_workers_log fn (tasks : list task) : forall sched done w,
  exists done' calls,
    run_workers fn tasks sched done w
    = (Ret done', mkWorld (optimizer w) (stdout w) (live_pools w)
                          (log w ++ (EvCall <$> calls))) /\
    NoDup calls /\
    forall i, i ∈ calls <-> i ∈ sched /\ i < length tasks /\ done !! i = None.
Proof.
  induction sched as [|i sched IH]; intros done w; cbn [run_workers].
  - exists done, []. split; [| split].
    + destruct w. cbn. by rewrite app_nil_r.
    + constructor.
    + intros i. rewrite !elem_of_nil. tauto.
  - destruct (tasks !! i) as [[[wd ws] ti]|] eqn:Ht;
      [destruct (done !! i) as [v|] eqn:Hd |].
    + destruct (IH done w) as (done' & calls & Hrun & Hnd & Hin).
      exists done', calls. split; [done |]. split; [done |].
      intros j. rewrite Hin, elem_of_cons. split; [tauto |].
      intros ([-> | Hj] & Hlt & Hnone); [congruence | tauto].
    + unfold bind at 1, emit at 1.
      destruct (IH (<[i := fn wd ws ti]> done)
                   (mkWorld (optimizer w) (stdout w) (live_pools w)
                            (log w ++ [EvCall i])))
        as (done' & calls & Hrun & Hnd & Hin).
      exists done', (i :: calls). split; [| split].
      * rewrite Hrun. cbn [optimizer stdout live_pools log fmap list_fmap].
        by rewrite <- app_assoc.
      * constructor; [| done]. rewrite Hin, lookup_insert_eq. by intros (_ & _ & ?).
      * intros j. rewrite !elem_of_cons, Hin.
        destruct (decide (j = i)) as [-> | Hne].
        -- split; [| tauto]. intros _. split; [tauto |].
           split; [by eapply lookup_lt_Some | done].
        -- rewrite lookup_insert_ne by done. tauto.
    + destruct (IH done w) as (done' & calls & Hrun & Hnd & Hin).
      exists done', calls. split; [done |]. split; [done |].
      intros j. rewrite Hin, elem_of_cons. split; [tauto |].
      intros ([-> | Hj] & Hlt & Hnone); [| tauto].
      apply lookup_ge_None in Ht. lia.
Qed.

Lemma executor_map_log fn sched xs ys zs w :
  exists calls,
    executor_map fn sched (Arr1 xs) (Arr1 ys) (Arr1 zs) w
    = (Ret (future_result fn (zip3 xs ys zs) sched
              <$> seq 0 (length (zip3 xs ys zs))),
       mkWorld (optimizer w) (stdout w) (live_pools w)
               (log w ++ submissions (optimizer w) 0 (zip3 xs ys zs)
                      ++ (EvCall <$> calls))) /\
    NoDup calls /\
    forall i, i ∈ calls <-> i ∈ sched /\ i < length (zip3 xs ys zs).
Proof.
  destruct (executor_map_spec fn sched xs ys zs w) as (it & w0 & Hspec & _ & ->).
  revert Hspec.
  unfold executor_map, bind, lift, nd_iter, ret, get_optimizer.
  cbn [np_array]. rewrite submit_all_log.
  destruct (run_workers_log fn (zip3 xs ys zs) sched ∅
              (mkWorld (optimizer w) (stdout w) (live_pools w)
                 (log w ++ submissions (optimizer w) 0 (zip3 xs ys zs))))
    as (done' & calls & -> & Hnd & Hin).
  cbn [optimizer stdout live_pools log]. intros [= Hit _].
  exists calls. split; [| split; [done |]].
  - rewrite Hit. by rewrite <- app_assoc.
  - intros i. rewrite Hin, lookup_empty. tauto.
Qed.

(** ** Tasks outstanding at the exit of the pool *)

Lemma existsb_ext_in {A} (g h : A -> bool) (l : list A) :
  (forall x, x ∈ l -> g x = h x) -> existsb g l = existsb h l.
Proof.
  induction l as [|x l IH]; intros Hext; [done |].
  cbn. rewrite (Hext x), IH; [done | | apply elem_of_cons; by left].
  intros y Hy. apply Hext, elem_of_cons. by right.
Qed.

Lemma existsb_submissions (h : nat -> bool) o tasks : forall i0,
  existsb (fun e => match e with
                    | EvSubmit i _ _ _ _ => h i
                    | _ => false
                    end) (submissions o i0 tasks)
  = existsb h (seq i0 (length tasks)).
Proof.
  induction tasks as [|[[wd ws] ti] rest IH]; intros i0; [done |].
  cbn. by rewrite IH.
Qed.

Lemma existsb_calls (g : event -> bool) (calls : list nat) :
  existsb g (EvCall <$> calls) = existsb (fun j => g (EvCall j)) calls.
Proof. induction calls as [|j calls IH]; [done |]. cbn. by rewrite IH. Qed.

Lemma existsb_never {A} (l : list A) : existsb (fun _ => false) l = false.
Proof. by induction l. Qed.

Lemma existsb_submissions_false (g : event -> bool) o tasks : forall i0,
  (forall i s wd ws ti, g (EvSubmit i s wd ws ti) = false) ->
  existsb g (submissions o i0 tasks) = false.
Proof.
  induction tasks as [|[[wd ws] ti] rest IH]; intros i0 Hg; [done |].
  cbn. by rewrite Hg, IH.
Qed.

Lemma completed_map_events o tasks i0 calls i :
  completed (submissions o i0 tasks ++ (EvCall <$> calls)) i
  = bool_decide (i ∈ calls).
Proof.
  unfold completed. rewrite existsb_app.
  rewrite existsb_submissions_false, existsb_calls by done.
  cbn [orb]. induction calls as [|j calls IH]; [done |].
  cbn [existsb]. rewrite IH.
  destruct (decide (j = i)) as [-> | Hne].
  - rewrite bool_decide_eq_true_2 by done. symmetry.
    apply bool_decide_eq_true_2, elem_of_cons. by left.
  - rewrite (bool_decide_eq_false_2 (j = i)) by done. cbn [orb].
    apply bool_decide_ext. rewrite elem_of_cons. split; [tauto |].
    intros [-> | Hi]; [done | exact Hi].
Qed.

Lemma hung_false sched n : hung sched n = false <-> forall i, i < n -> i ∈ sched.
Proof.
  unfold hung. induction n as [|n IH].
  - cbn. split; [intros _ i Hi; lia | done].
  - rewrite seq_S, existsb_app. cbn [existsb plus]. rewrite !orb_false_iff, IH.
    rewrite negb_false_iff, bool_decide_eq_true. split.
    + intros (Hlt & Hn & _) i Hi. destruct (decide (i = n)) as [-> | Hne]; [done |].
      apply Hlt. lia.
    + intros Hall. split; [| split; [| done]]; [intros i Hi |]; apply Hall; lia.
Qed.

(** After the map, a task is outstanding exactly when its index is
    missing from the completion order. *)
Lemma outstanding_map_events o (tasks : list task) calls sched :
  (forall i, i ∈ calls <-> i ∈ sched /\ i < length tasks) ->
  outstanding (submissions o 0 tasks ++ (EvCall <$> calls))
  = hung sched (length tasks).
Proof.
  intros Hin. unfold outstanding, hung. rewrite existsb_app, existsb_calls.
  rewrite existsb_never, orb_false_r.
  rewrite (existsb_submissions
             (fun i => negb (completed (submissions o 0 tasks ++ (EvCall <$> calls)) i))).
  apply existsb_ext_in. intros i Hi. apply elem_of_seq in Hi.
  rewrite completed_map_events. f_equal. apply bool_decide_ext.
  rewrite Hin. split; [tauto | intros; split; [done | lia]].
Qed.

Lemma submissions_map_events o tasks : forall i0,
  Forall (map_event o) (submissions o i0 tasks).
Proof.
  induction tasks as [|[[wd ws] ti] rest IH]; intros i0; cbn [submissions];
    constructor; [done | apply IH].
Qed.

(** The whole effect of a call on a sweep with a ti array. *)
Lemma optimize_log f rt self w tis :
  mpi4py_importable rt = true ->
  ti_array self = Some tis ->
  exists calls,
    NoDup calls /\
    (forall i, i ∈ calls <->
               i ∈ completion_order rt /\
               i < length (zip3 (wd_array self) (ws_array self) tis)) /\
    optimize f rt self w
    = (optimize_outcome f rt self,
       mkWorld (mkYawOpt true) (stdout w ++ progress_lines self)
               (pools_after (optimize_outcome f rt self) (live_pools w))
               (log w ++ EvAcquire
                  :: submissions (mkYawOpt true) 0
                       (zip3 (wd_array self) (ws_array self) tis)
                  ++ (EvCall <$> calls)
                  ++ release_events (optimize_outcome f rt self))).
Proof.
  intros Himp Hti.
  unfold optimize, optimize_outcome, except_ImportError, import_MPIPoolExecutor.
  rewrite Himp, Hti.
  unfold bind at 1. unfold ret at 1.
  unfold bind at 1. unfold print at 1.
  unfold bind at 1. unfold print at 1.
  unfold bind at 1. unfold print2, print at 1.
  unfold bind at 1. unfold print at 1.
  unfold bind at 1. unfold set_calc_init_power at 1.
  cbn [optimizer stdout live_pools log].
  unfold bind at 1. unfold with_MPIPoolExecutor, pool_acquire.
  cbn [optimizer stdout live_pools log].
  unfold bind at 1. unfold get_optimizer at 1.
  cbn [optimizer stdout live_pools log].
  set (w1 := mkWorld _ _ _ _).
  assert (Hout : stdout w1 = stdout w ++ progress_lines self).
  { unfold w1, progress_lines. cbn [stdout]. by rewrite <- !app_assoc. }
  unfold bind at 1. unfold np_array, np_array_opt.
  destruct (executor_map_log (f self (mkYawOpt true)) (completion_order rt)
              (wd_array self) (ws_array self) tis w1)
    as (calls & -> & Hnd & Hin).
  exists calls. split; [done |]. split; [done |].
  rewrite for_each_case_collect. fold (result_iterator f rt self tis).
  rewrite Hout. cbn zeta. cbn [log].
  assert (Hw1 : log w1 = log w ++ [EvAcquire]) by reflexivity.
  rewrite !Hw1, drop_app_length.
  rewrite (outstanding_map_events _ _ _ (completion_order rt)) by done.
  destruct (collect _ _) as [df|e|];
    [destruct (hung _ _) | destruct (hung _ _) |];
    cbn [snd pool_release bind ret release_events pools_after
         optimizer stdout live_pools log];
    unfold w1; cbn [optimizer stdout live_pools log pred];
    rewrite <- ?app_assoc, ?app_nil_r; reflexivity.
Qed.

(** The whole effect of a call on a sweep without a ti array. *)
Lemma optimize_no_ti f rt self w :
  mpi4py_importable rt = true ->
  ti_array self = None ->
  optimize f rt self w
  = (Raise TypeError,
     mkWorld (mkYawOpt true) (stdout w ++ progress_lines self)
             (live_pools w) (log w ++ [EvAcquire; EvRelease])).
Proof.
  intros Himp Hti.
  unfold optimize, except_ImportError, import_MPIPoolExecutor.
  rewrite Himp, Hti.
  unfold bind at 1. unfold ret at 1.
  unfold bind at 1. unfold print at 1.
  unfold bind at 1. unfold print at 1.
  unfold bind at 1. unfold print2, print at 1.
  unfold bind at 1. unfold print at 1.
  unfold bind at 1. unfold set_calc_init_power at 1.
  cbn [optimizer stdout live_pools log].
  unfold bind at 1. unfold with_MPIPoolExecutor, pool_acquire.
  cbn [optimizer stdout live_pools log].
  unfold bind at 1. unfold get_optimizer at 1.
  cbn [optimizer stdout live_pools log].
  unfold bind at 1. unfold np_array, np_array_opt.
  rewrite executor_map_0d. cbn [log]. rewrite drop_all.
  cbn [outstanding existsb snd pool_release optimizer stdout live_pools log pred].
  unfold progress_lines. by rewrite <- !app_assoc.
Qed.

(** Every run of [optimize] that gets past the import: the outcome, and
    what it leaves in the world. *)
Lemma optimize_run f rt self w :
  mpi4py_importable rt = true ->
  exists w' evs,
    optimize f rt self w = (optimize_outcome f rt self, w') /\
    optimizer w' = mkYawOpt true /\
    stdout w' = stdout w ++ progress_lines self /\
    Forall (map_event (mkYawOpt true)) evs /\
    match optimize_outcome f rt self with
    | Block => live_pools w' = S (live_pools w) /\
               log w' = log w ++ EvAcquire :: evs
    | _ => live_pools w' = live_pools w /\
           log w' = log w ++ EvAcquire :: evs ++ [EvRelease]
    end.
Proof.
  intros Himp. destruct (ti_array self) as [tis|] eqn:Hti.
  - destruct (optimize_log f rt self w tis Himp Hti) as (calls & _ & _ & Hrun).
    eexists _, (submissions (mkYawOpt true) 0
                  (zip3 (wd_array self) (ws_array self) tis) ++ (EvCall <$> calls)).
    split; [exact Hrun |]. cbn [optimizer stdout live_pools log].
    split; [done |]. split; [done |]. split.
    + apply Forall_app. split; [apply submissions_map_events |].
      apply Forall_fmap, Forall_true. done.
    + destruct (optimize_outcome f rt self);
        cbn [pools_after release_events]; rewrite <- ?app_assoc, ?app_nil_r; done.
  - rewrite (optimize_no_ti f rt self w Himp Hti).
    unfold optimize_outcome. rewrite Hti.
    eexists _, []. split; [reflexivity |]. cbn [optimizer stdout live_pools log].
    repeat split; done.
Qed.

(** When the import fails, [optimize] raises at once and the world is
    as it was. *)
Lemma optimize_not_importable f rt self w :
  mpi4py_importable rt = false ->
  optimize f rt self w = (Raise (ImportError err_msg), w).
Proof.
  intros Himp. unfold optimize, except_ImportError, import_MPIPoolExecutor.
  rewrite Himp. reflexivity.
Qed.

(** ** Frames *)

Lemma reset_index_len df : df_len (reset_index df) = df_len df.
Proof.
  unfold df_len, reset_index. cbn [frame_rows].
  rewrite length_zip_with, !length_fmap, length_seq. lia.
Qed.

Lemma reset_index_index df :
  df_index (reset_index df) = Z.of_nat <$> seq 0 (df_len df).
Proof.
  unfold df_index, df_len, reset_index. cbn [frame_rows].
  apply fst_zip. rewrite !length_fmap, length_seq. lia.
Qed.

Lemma reset_index_row df i : df_row (reset_index df) i = df_row df i.
Proof.
  unfold df_row, reset_index. cbn [frame_rows].
  rewrite <- !list_lookup_fmap. f_equal.
  apply snd_zip. rewrite !length_fmap, length_seq. lia.
Qed.

Lemma carried_refl r : carried r r.
Proof. by split. Qed.

Lemma carried_trans r1 r2 r3 : carried r1 r2 -> carried r2 r3 -> carried r1 r3.
Proof. intros [Hl1 Hc1] [Hl2 Hc2]. split; [congruence | by etrans]. Qed.

Lemma Forall2_carried_refl rows : Forall2 carried rows rows.
Proof. induction rows; constructor; [apply carried_refl | done]. Qed.

Lemma Forall2_carried_trans rows1 rows2 rows3 :
  Forall2 carried rows1 rows2 -> Forall2 carried rows2 rows3 ->
  Forall2 carried rows1 rows3.
Proof.
  intros H12. revert rows3.
  induction H12 as [|r1 r2 rows1 rows2 Hr H12 IH]; intros rows3 H23;
    inversion H23; subst; constructor; [by eapply carried_trans | by apply IH].
Qed.

(** Widening a row keeps its label and its cells. *)
Lemma fill_row_carried cols r : carried r (fill_row cols r).
Proof. split; [done |]. apply map_union_subseteq_l. Qed.

Lemma Forall2_fill_rows cols rows : Forall2 carried rows (fill_row cols <$> rows).
Proof.
  induction rows; cbn; constructor; [apply fill_row_carried | done].
Qed.

(** [append] keeps the rows of both frames, in order, labels and cells
    included; it may add cells to them. *)
Lemma df_append_carried df other :
  Forall2 carried (frame_rows df ++ frame_rows other)
                  (frame_rows (df_append df other)).
Proof.
  unfold df_append. cbn [frame_rows]. apply Forall2_app; apply Forall2_fill_rows.
Qed.

Lemma df_append_len df other :
  df_len (df_append df other) = df_len df + df_len other.
Proof.
  unfold df_len. rewrite <- (Forall2_length _ _ _ (df_append_carried df other)).
  apply length_app.
Qed.

(** ** Zipping *)

Lemma zip3_lookup xs : forall ys zs i x y z,
  xs !! i = Some x -> ys !! i = Some y -> zs !! i = Some z ->
  zip3 xs ys zs !! i = Some (x, y, z).
Proof.
  induction xs as [|x0 xs IH]; intros [|y0 ys] [|z0 zs] [|i] x y z Hx Hy Hz;
    simplify_eq/=; try done.
  by apply IH.
Qed.

Lemma zip3_length xs : forall ys zs,
  length ys = length xs -> length zs = length xs ->
  length (zip3 xs ys zs) = length xs.
Proof.
  induction xs as [|x0 xs IH]; intros [|y0 ys] [|z0 zs] Hy Hz;
    simplify_eq/=; try done.
  f_equal. by apply IH.
Qed.

(** ** The result iterator *)

(** If every submitted task completes, in whatever order, the iterator
    holds the task results in submission order. *)
Lemma iterator_complete fn (tasks : list task) sched :
  (forall i, i < length tasks -> i ∈ sched) ->
  future_result fn tasks sched <$> seq 0 (length tasks)
  = (fun t => Some (apply_task fn t)) <$> tasks.
Proof.
  intros Hall. apply list_eq. intros i.
  rewrite !list_lookup_fmap.
  destruct (decide (i < length tasks)) as [Hi|Hi].
  - rewrite lookup_seq_lt by done. cbn [fmap option_fmap option_map plus].
    unfold future_result. rewrite decide_True by auto.
    destruct (lookup_lt_is_Some_2 tasks i Hi) as [t Ht]. by rewrite Ht.
  - rewrite lookup_seq_ge by lia. by rewrite lookup_ge_None_2 by lia.
Qed.

Lemma collect_all_ok fn (tasks : list task) : forall df,
  (forall t, t ∈ tasks -> exists d, apply_task fn t = inr d) ->
  exists df',
    collect ((fun t => Some (apply_task fn t)) <$> tasks) df = Ret df' /\
    Forall2 carried (frame_rows df ++ (tasks ≫= case_rows fn)) (frame_rows df').
Proof.
  induction tasks as [|t tasks IH]; intros df Hok.
  - exists df. split; [reflexivity |]. cbn [mbind list_bind].
    rewrite app_nil_r. apply Forall2_carried_refl.
  - destruct (Hok t) as [d Hd]; [apply elem_of_cons; by left |].
    destruct (IH (df_append df d)) as (df' & Hc & Hr).
    { intros t' Ht'. apply Hok, elem_of_cons. by right. }
    exists df'. cbn [fmap list_fmap collect]. rewrite Hd. split; [exact Hc |].
    cbn [mbind list_bind]. unfold case_rows at 1. rewrite Hd, app_assoc.
    eapply Forall2_carried_trans; [| exact Hr].
    apply Forall2_app; [apply df_append_carried | apply Forall2_carried_refl].
Qed.

(** What holds of a row, at a position, of rows that are carried. *)
Lemma carried_rows_lookup rows rows' i row :
  Forall2 carried rows rows' ->
  snd <$> rows !! i = Some row ->
  exists row', snd <$> rows' !! i = Some row' /\ row ⊆ row'.
Proof.
  intros Hcar Hrow. apply fmap_Some in Hrow as ([lbl r] & Hlk & ->).
  destruct (Forall2_lookup_l _ _ _ _ _ Hcar Hlk) as ([lbl' r'] & Hlk' & _ & Hsub).
  exists r'. by rewrite Hlk'.
Qed.

Lemma condition_row_carried t row row' :
  row ⊆ row' -> condition_row t row -> condition_row t row'.
Proof.
  destruct t as [[wd ws] ti]. intros Hsub (Hwd & Hws & Hti).
  repeat split; by eapply lookup_weaken.
Qed.

Lemma baseline_present_carried row row' :
  row ⊆ row' -> baseline_present row = true -> baseline_present row' = true.
Proof.
  unfold baseline_present. intros Hsub. rewrite !forallb_forall.
  intros Hall c Hc. specialize (Hall c Hc).
  destruct (row !! c) as [v|] eqn:Hv; [| done].
  by rewrite (lookup_weaken _ _ _ _ Hv Hsub).
Qed.

(** The first failing future, in submission order, ends the loop with
    its exception. *)
Lemma collect_raises it : forall k e df,
  it !! k = Some (Some (inl e)) ->
  (forall j, j < k -> exists v, it !! j = Some (Some v)) ->
  exists j e', j <= k /\ it !! j = Some (Some (inl e')) /\
               collect it df = Raise e'.
Proof.
  induction it as [|o it IH]; intros k e df Hk Hbefore; [done |].
  destruct k as [|k].
  - simplify_eq/=. exists 0, e. split; [lia |]. done.
  - destruct (Hbefore 0) as [v Hv]; [lia |]. simplify_eq/=.
    destruct v as [e0|d].
    + exists 0, e0. split; [lia |]. done.
    + destruct (IH k e (df_append df d) Hk) as (j & e' & Hj & Hlk & Hc).
      { intros j Hj. apply (Hbefore (S j)). lia. }
      exists (S j), e'. split; [lia |]. done.
Qed.

Lemma rows_one_per_case fn (P : task -> gmap string cell -> Prop) (tasks : list task) :
  (forall t, t ∈ tasks -> length (case_rows fn t) = 1 /\
                          Forall (fun r => P t r.2) (case_rows fn t)) ->
  length (tasks ≫= case_rows fn) = length tasks /\
  forall i t, tasks !! i = Some t ->
    exists row, snd <$> (tasks ≫= case_rows fn) !! i = Some row /\ P t row.
Proof.
  induction tasks as [|t0 tasks IH]; intros Hone; [by split |].
  destruct (Hone t0) as [Hlen HP]; [apply elem_of_cons; by left |].
  destruct IH as [IHlen IHrow];
    [intros t Ht; apply Hone, elem_of_cons; by right |].
  cbn [mbind list_bind] in *.
  destruct (case_rows fn t0) as [|[lbl row] [|]] eqn:Hrows; simplify_eq/=.
  split; [by f_equal |].
  intros [|i] t Ht; simplify_eq/=.
  - exists row. split; [done |]. by inversion HP.
  - by apply IHrow.
Qed.

(** The run in which every task completes and no case raises. *)
Lemma optimize_success f rt self tis :
  ti_array self = Some tis ->
  all_complete rt (length (zip3 (wd_array self) (ws_array self) tis)) ->
  all_cases_succeed f self tis ->
  exists df,
    optimize_outcome f rt self = Ret (reset_index df) /\
    Forall2 carried
      (zip3 (wd_array self) (ws_array self) tis
         ≫= case_rows (f self (mkYawOpt true)))
      (frame_rows df).
Proof.
  intros Hti Hall Hok. unfold optimize_outcome, result_iterator. rewrite Hti.
  cbn zeta. rewrite iterator_complete by exact Hall.
  destruct (collect_all_ok (f self (mkYawOpt true)) _ pd_DataFrame Hok)
    as (df & -> & Hrows).
  rewrite (proj2 (hung_false _ _) Hall). by exists df.
Qed.

(** A loop that ran to its end appended one frame per future. *)
Lemma collect_ret_len it : forall df df',
  collect it df = Ret df' ->
  (forall i d, it !! i = Some (Some (inr d)) -> length (frame_rows d) = 1) ->
  df_len df' = df_len df + length it.
Proof.
  induction it as [|[[e|d]|] it IH]; intros df df' Hc Hone; simplify_eq/=.
  - lia.
  - rewrite (IH _ _ Hc); [| intros i d' Hi; by apply (Hone (S i))].
    rewrite df_append_len. unfold df_len at 2.
    rewrite (Hone 0 d eq_refl). lia.
Qed.

Lemma iterator_lookup fn (tasks : list task) sched i t :
  tasks !! i = Some t -> i ∈ sched ->
  (future_result fn tasks sched <$> seq 0 (length tasks)) !! i
  = Some (Some (apply_task fn t)).
Proof.
  intros Ht Hi. rewrite list_lookup_fmap.
  rewrite lookup_seq_lt by (by eapply lookup_lt_Some).
  cbn [fmap option_fmap option_map plus]. unfold future_result.
  rewrite decide_True by done. by rewrite Ht.
Qed.

Lemma iterator_lookup_inv fn (tasks : list task) sched i v :
  (future_result fn tasks sched <$> seq 0 (length tasks)) !! i = Some (Some v) ->
  exists t, tasks !! i = Some t /\ apply_task fn t = v.
Proof.
  rewrite list_lookup_fmap. intros Hlk.
  destruct (seq 0 (length tasks) !! i) as [j|] eqn:Hseq; [| done].
  apply lookup_seq in Hseq as [-> _]. cbn in Hlk.
  unfold future_result in Hlk. case_decide; [| done].
  destruct (tasks !! i) as [t|]; [| done]. simplify_eq/=. by exists t.
Qed.

(** The outcome is a table only if the ti array is there and the loop
    ran to its end. *)
Lemma optimize_outcome_ret f rt self df :
  optimize_outcome f rt self = Ret df ->
  exists tis df0,
    ti_array self = Some tis /\
    collect (result_iterator f rt self tis) pd_DataFrame = Ret df0 /\
    df = reset_index df0.
Proof.
  unfold optimize_outcome. destruct (ti_array self) as [tis|]; [| done].
  cbn zeta. destruct (collect _ _) as [df0|e|] eqn:Hc;
    [| by destruct (hung _ _) | done].
  destruct (hung _ _); [done |]. intros [= <-].
  by exists tis, df0.
Qed.

(** Without a ti array the call raises as soon as the arguments of the
    map are zipped. *)
Lemma optimize_without_ti f rt self w :
  mpi4py_importable rt = true -> ti_array self = None ->
  (optimize f rt self w).1 = Raise TypeError.
Proof.
  intros Himp Hti.
  destruct (optimize_run f rt self w Himp) as (w' & evs & -> & _).
  unfold optimize_outcome. by rewrite Hti.
Qed.

(** With a ti array of the right length, every task completing and no
    case raising, the table has one row per condition. *)
Lemma optimize_row_count f rt self w tis :
  mpi4py_importable rt = true ->
  ti_array self = Some tis ->
  equal_lengths self ->
  all_complete rt (length (wd_array self)) ->
  all_cases_succeed f self tis ->
  one_row_per_case f self ->
  exists df w',
    optimize f rt self w = (Ret df, w') /\ df_len df = length (wd_array self).
Proof.
  intros Himp Hti [Hws Htis] Hall Hok Hone. rewrite Hti in Htis.
  assert (Hlen : length (zip3 (wd_array self) (ws_array self) tis)
                 = length (wd_array self)) by by apply zip3_length.
  destruct (optimize_run f rt self w Himp) as (w' & evs & Hrun & _).
  destruct (optimize_success f rt self tis Hti) as (df0 & Hout & Hrows);
    [by rewrite Hlen | done |].
  exists (reset_index df0), w'. split; [by rewrite Hrun, Hout |].
  rewrite reset_index_len. unfold df_len.
  rewrite <- (Forall2_length _ _ _ Hrows).
  destruct (rows_one_per_case (f self (mkYawOpt true)) (fun _ _ => True)
              (zip3 (wd_array self) (ws_array self) tis)) as [Hn _];
    [| by rewrite Hn].
  intros [[wd ws] ti] Ht. destruct (Hok _ Ht) as [d Hd].
  unfold case_rows. rewrite Hd. split.
  - by apply (Hone (mkYawOpt true) wd ws ti).
  - by apply Forall_true.
Qed.

(** ** The stand-in optimizer *)

(** The stand-in honours the contract of the per-case optimizer. *)
Lemma fake_one_row self : one_row_per_case fake_one_case self.
Proof.
  intros o wd ws ti d. unfold fake_one_case.
  destruct (PrimFloat.eqb ws 13); [done |]. by intros [= <-].
Qed.

Lemma fake_reports_condition self : reports_condition fake_one_case self.
Proof.
  intros o wd ws ti d. unfold fake_one_case.
  destruct (PrimFloat.eqb ws 13); [done |]. intros [= <-].
  constructor; [| constructor]. destruct o as [[|]]; repeat split.
Qed.

Lemma fake_computes_baseline self : computes_baseline fake_one_case self.
Proof.
  intros o wd ws ti d Hflag. unfold fake_one_case.
  destruct (PrimFloat.eqb ws 13); [done |]. intros [= <-].
  constructor; [| constructor]. destruct o as [flag]. cbn in Hflag. subst flag.
  reflexivity.
Qed.

Lemma self3_cases_succeed :
  all_cases_succeed fake_one_case self3 [0.0625; 0.125; 0.25]%float.
Proof.
  unfold all_cases_succeed. apply Forall_forall.
  repeat constructor; eexists; reflexivity.
Qed.

Lemma self3_all_complete b : all_complete (mkRuntime b [2; 0; 1]) 3.
Proof.
  intros i Hi. cbn [completion_order].
  destruct i as [|[|[|i]]]; [set_solver.. | lia].
Qed.

(** * The claims *)

(** C2: for equal-length wd, ws and ti arrays and every order in which
    the workers complete their tasks, [optimize] returns a table whose
    i-th row carries the (ws, wd, ti) values of the i-th input tuple:
    the rows are in submission order. *)
Theorem rows_in_submission_order f rt self w tis :
  mpi4py_importable rt = true ->
  ti_array self = Some tis ->
  equal_lengths self ->
  all_complete rt (length (wd_array self)) ->
  all_cases_succeed f self tis ->
  one_row_per_case f self ->
  reports_condition f self ->
  exists df w',
    optimize f rt self w = (Ret df, w') /\
    forall i wd ws ti,
      wd_array self !! i = Some wd ->
      ws_array self !! i = Some ws ->
      tis !! i = Some ti ->
      exists row, df_row df i = Some row /\ condition_row (wd, ws, ti) row.
Proof.
  intros Himp Hti [Hws Htis] Hall Hok Hone Hrep. rewrite Hti in Htis.
  assert (Hlen : length (zip3 (wd_array self) (ws_array self) tis)
                 = length (wd_array self)) by by apply zip3_length.
  destruct (optimize_run f rt self w Himp) as (w' & evs & Hrun & _).
  destruct (optimize_success f rt self tis Hti) as (df0 & Hout & Hrows);
    [by rewrite Hlen | done |].
  exists (reset_index df0), w'. split; [by rewrite Hrun, Hout |].
  intros i wd ws ti Hwd Hwsi Hti'.
  rewrite reset_index_row. unfold df_row.
  destruct (rows_one_per_case (f self (mkYawOpt true)) condition_row
              (zip3 (wd_array self) (ws_array self) tis)) as [_ Hrow].
  - intros [[wd' ws'] ti'] Ht. destruct (Hok _ Ht) as [d Hd].
    unfold case_rows. rewrite Hd. split.
    + by apply (Hone (mkYawOpt true) wd' ws' ti').
    + by apply (Hrep (mkYawOpt true) wd' ws' ti').
  - destruct (Hrow i (wd, ws, ti)) as (row & Hlk & Hcond);
      [by apply zip3_lookup |].
    destruct (carried_rows_lookup _ _ _ _ Hrows Hlk) as (row' & Hlk' & Hsub).
    exists row'. split; [done |]. by eapply condition_row_carried.
Qed.

Lemma rows_in_submission_order_witness :
  exists df w',
    optimize fake_one_case (mkRuntime true [2; 0; 1]) self3 world0 = (Ret df, w') /\
    forall i wd ws ti,
      wd_array self3 !! i = Some wd ->
      ws_array self3 !! i = Some ws ->
      [0.0625; 0.125; 0.25]%float !! i = Some ti ->
      exists row, df_row df i = Some row /\ condition_row (wd, ws, ti) row.
Proof.
  apply (rows_in_submission_order fake_one_case (mkRuntime true [2; 0; 1])
           self3 world0 [0.0625; 0.125; 0.25]%float).
  - reflexivity.
  - reflexivity.
  - split; reflexivity.
  - apply self3_all_complete.
  - apply self3_cases_succeed.
  - apply fake_one_row.
  - apply fake_reports_condition.
Defined.

(** C4: if [mpi4py.futures] cannot be imported, [optimize] raises an
    [ImportError] carrying the remediation message and nothing else
    happens: the world is as it was, so no case was submitted and the
    per-case optimizer was called zero times. *)
Theorem missing_runtime_raises_before_dispatch f rt self w :
  mpi4py_importable rt = false ->
  optimize f rt self w = (Raise (ImportError err_msg), w) /\
  call_count (log (optimize f rt self w).2) = call_count (log w).
Proof.
  intros Himp. rewrite (optimize_not_importable f rt self w Himp).
  by split.
Qed.

Lemma missing_runtime_raises_before_dispatch_witness :
  optimize fake_one_case (mkRuntime false [2; 0; 1]) self3 world0
    = (Raise (ImportError err_msg), world0) /\
  call_count (log (optimize fake_one_case (mkRuntime false [2; 0; 1]) self3 world0).2)
    = call_count (log world0).
Proof.
  apply (missing_runtime_raises_before_dispatch fake_one_case
           (mkRuntime false [2; 0; 1]) self3 world0).
  reflexivity.
Defined.

(** C5: if the optimization of a case raises inside a worker and every
    submitted task completes (the exit of the pool waits for them),
    [optimize] raises: the exception that reaches the caller is the one
    a failing case raised, unchanged, and no table is returned.  (Among
    several failing cases it is that of the first in submission
    order.) *)
Theorem worker_error_aborts_sweep f rt self w tis k t e :
  mpi4py_importable rt = true ->
  ti_array self = Some tis ->
  zip3 (wd_array self) (ws_array self) tis !! k = Some t ->
  apply_task (f self (mkYawOpt true)) t = inl e ->
  all_complete rt (length (zip3 (wd_array self) (ws_array self) tis)) ->
  exists j t' e' w',
    j <= k /\
    zip3 (wd_array self) (ws_array self) tis !! j = Some t' /\
    apply_task (f self (mkYawOpt true)) t' = inl e' /\
    optimize f rt self w = (Raise e', w').
Proof.
  intros Himp Hti Hk He Hall.
  destruct (optimize_run f rt self w Himp) as (w' & evs & Hrun & _).
  set (tasks := zip3 (wd_array self) (ws_array self) tis) in *.
  set (fn := f self (mkYawOpt true)) in *.
  pose proof (lookup_lt_Some _ _ _ Hk) as Hklt.
  destruct (collect_raises (result_iterator f rt self tis) k e pd_DataFrame)
    as (j & e' & Hj & Hlk & Hc).
  - unfold result_iterator. cbn zeta. fold tasks fn.
    rewrite (iterator_lookup fn tasks _ k t Hk); [by rewrite He | by apply Hall].
  - intros j Hj.
    destruct (lookup_lt_is_Some_2 tasks j) as [tj Htj]; [lia |].
    exists (apply_task fn tj). unfold result_iterator. cbn zeta. fold tasks fn.
    apply iterator_lookup; [done | apply Hall; lia].
  - apply iterator_lookup_inv in Hlk as (t' & Ht' & He').
    exists j, t', e', w'. repeat split; try done.
    rewrite Hrun. unfold optimize_outcome. rewrite Hti. cbn zeta. fold tasks.
    by rewrite Hc, (proj2 (hung_false _ _) Hall).
Qed.

Lemma worker_error_aborts_sweep_witness :
  exists j t' e' w',
    j <= 3 /\
    zip3 (wd_array self5) (ws_array self5)
         [0.0625; 0.0625; 0.125; 0.125; 0.25]%float !! j = Some t' /\
    apply_task (fake_one_case self5 (mkYawOpt true)) t' = inl e' /\
    optimize fake_one_case (mkRuntime true [4; 3; 1; 0; 2]) self5 world0
      = (Raise e', w').
Proof.
  apply (worker_error_aborts_sweep fake_one_case (mkRuntime true [4; 3; 1; 0; 2])
           self5 world0 [0.0625; 0.0625; 0.125; 0.125; 0.25]%float
           3 (285, 13, 0.125)%float (Exception "RuntimeError" "solver diverged")).
  - reflexivity.
  - reflexivity.
  - reflexivity.
  - reflexivity.
  - intros j Hj. cbn [completion_order].
    destruct j as [|[|[|[|[|j]]]]]; [set_solver.. | cbn in Hj; lia].
Defined.

(** C6: whatever the baseline flag of the wrapped optimizer is at
    entry, [optimize] forces it before anything is dispatched: every
    case is computed on an optimizer copy whose flag is set.  So, for a
    per-case optimizer that computes the baseline when (and, for all the
    hypotheses say, only when) the flag is set, the call returns the
    full table, leaves the flag set, and every one of its rows has the
    baseline power columns present and non-null. *)
Theorem baseline_forced_before_dispatch f rt self w tis :
  mpi4py_importable rt = true ->
  ti_array self = Some tis ->
  all_complete rt (length (zip3 (wd_array self) (ws_array self) tis)) ->
  all_cases_succeed f self tis ->
  one_row_per_case f self ->
  computes_baseline f self ->
  exists df w',
    optimize f rt self w = (Ret df, w') /\
    calc_init_power (optimizer w') = true /\
    df_len df = length (zip3 (wd_array self) (ws_array self) tis) /\
    forall i, i < length (zip3 (wd_array self) (ws_array self) tis) ->
      exists row, df_row df i = Some row /\ baseline_present row = true.
Proof.
  intros Himp Hti Hall Hok Hone Hbase.
  destruct (optimize_run f rt self w Himp) as (w' & evs & Hrun & Hopt & _).
  destruct (optimize_success f rt self tis Hti Hall Hok) as (df0 & Hout & Hrows).
  destruct (rows_one_per_case (f self (mkYawOpt true))
              (fun _ row => baseline_present row = true)
              (zip3 (wd_array self) (ws_array self) tis)) as [Hn Hrow].
  { intros [[wd ws] ti] Ht. destruct (Hok _ Ht) as [d Hd].
    unfold case_rows. rewrite Hd. split.
    - by apply (Hone (mkYawOpt true) wd ws ti).
    - by apply (Hbase (mkYawOpt true) wd ws ti). }
  exists (reset_index df0), w'. split; [by rewrite Hrun, Hout |].
  split; [by rewrite Hopt |]. split.
  - rewrite reset_index_len. unfold df_len.
    by rewrite <- (Forall2_length _ _ _ Hrows).
  - intros i Hi.
    destruct (lookup_lt_is_Some_2 _ i Hi) as [t Ht].
    destruct (Hrow i t Ht) as (row & Hlk & Hpresent).
    destruct (carried_rows_lookup _ _ _ _ Hrows Hlk) as (row' & Hlk' & Hsub).
    exists row'. rewrite reset_index_row. split; [done |].
    by eapply baseline_present_carried.
Qed.

Lemma baseline_forced_before_dispatch_witness :
  calc_init_power (optimizer world0) = false /\
  exists df w',
    optimize fake_one_case (mkRuntime true [2; 0; 1]) self3 world0 = (Ret df, w') /\
    calc_init_power (optimizer w') = true /\
    df_len df = length (zip3 (wd_array self3) (ws_array self3)
                             [0.0625; 0.125; 0.25]%float) /\
    forall i, i < length (zip3 (wd_array self3) (ws_array self3)
                               [0.0625; 0.125; 0.25]%float) ->
      exists row, df_row df i = Some row /\ baseline_present row = true.
Proof.
  split; [reflexivity |].
  apply (baseline_forced_before_dispatch fake_one_case (mkRuntime true [2; 0; 1])
           self3 world0 [0.0625; 0.125; 0.25]%float).
  - reflexivity.
  - reflexivity.
  - apply self3_all_complete.
  - apply self3_cases_succeed.
  - apply fake_one_row.
  - apply fake_computes_baseline.
Defined.

(** C7: for every call of [optimize] that returns, over N conditions,
    the index of the table is 0 .. N-1, whatever labels the per-case
    rows carried. *)
Theorem index_reset_to_range f rt self w df w' :
  equal_lengths self ->
  one_row_per_case f self ->
  optimize f rt self w = (Ret df, w') ->
  df_index df = Z.of_nat <$> seq 0 (length (wd_array self)).
Proof.
  intros [Hws Htis] Hone Hrun.
  destruct (mpi4py_importable rt) eqn:Himp;
    [| by rewrite (optimize_not_importable f rt self w Himp) in Hrun].
  destruct (optimize_run f rt self w Himp) as (w1 & evs & Hrun' & _).
  rewrite Hrun in Hrun'. injection Hrun' as Hout _. symmetry in Hout.
  apply optimize_outcome_ret in Hout as (tis & df0 & Hti & Hc & ->).
  rewrite Hti in Htis. rewrite reset_index_index. do 2 f_equal.
  rewrite (collect_ret_len _ _ _ Hc).
  - unfold result_iterator, df_len. cbn [frame_rows pd_DataFrame length plus].
    rewrite length_fmap, length_seq. by apply zip3_length.
  - intros i d Hi. apply iterator_lookup_inv in Hi as ([[wd ws] ti] & _ & Hd).
    by apply (Hone (mkYawOpt true) wd ws ti).
Qed.

Lemma index_reset_to_range_witness :
  df_index
    match (optimize fake_one_case (mkRuntime true [2; 0; 1]) self3 world0).1 with
    | Ret df => df
    | _ => pd_DataFrame
    end
  = Z.of_nat <$> seq 0 (length (wd_array self3)).
Proof.
  apply (index_reset_to_range fake_one_case (mkRuntime true [2; 0; 1]) self3 world0
           _ (optimize fake_one_case (mkRuntime true [2; 0; 1]) self3 world0).2).
  - split; reflexivity.
  - apply fake_one_row.
  - vm_compute. reflexivity.
Defined.

(** C8: on every exit of [optimize] past the acquisition of the pool,
    by return or by an exception, the pool has been released: as many
    pools are live as before the call, and the release is the last thing
    recorded, after the acquisition and the work of the map. *)
Theorem pool_released_on_every_exit f rt self w r w' :
  mpi4py_importable rt = true ->
  optimize f rt self w = (r, w') ->
  r <> Block ->
  live_pools w' = live_pools w /\
  exists evs,
    log w' = log w ++ EvAcquire :: evs ++ [EvRelease] /\
    Forall (map_event (mkYawOpt true)) evs.
Proof.
  intros Himp Hrun Hexit.
  destruct (optimize_run f rt self w Himp) as (w1 & evs & Hrun' & _ & _ & Hev & Hlog).
  rewrite Hrun in Hrun'. injection Hrun' as -> ->.
  destruct (optimize_outcome f rt self); [| | done];
    destruct Hlog as [Hp Hl]; (split; [done |]); by exists evs.
Qed.

Lemma pool_released_on_every_exit_witness :
  live_pools (optimize fake_one_case (mkRuntime true [4; 3; 1; 0; 2]) self5 world0).2
    = live_pools world0 /\
  exists evs,
    log (optimize fake_one_case (mkRuntime true [4; 3; 1; 0; 2]) self5 world0).2
      = log world0 ++ EvAcquire :: evs ++ [EvRelease] /\
    Forall (map_event (mkYawOpt true)) evs.
Proof.
  apply (pool_released_on_every_exit fake_one_case (mkRuntime true [4; 3; 1; 0; 2])
           self5 world0
           (Raise (Exception "RuntimeError" "solver diverged"))).
  - reflexivity.
  - vm_compute. reflexivity.
  - discriminate.
Defined.

(** C9: whenever the import succeeds, [optimize] prints the banner, the
    announcement and the number of conditions, whatever the value of
    [verbose]: the flag does not gate the progress output. *)
Theorem progress_printed_regardless_of_verbose f rt self w :
  mpi4py_importable rt = true ->
  stdout (optimize f rt self w).2 = stdout w ++ progress_lines self.
Proof.
  intros Himp.
  destruct (optimize_run f rt self w Himp) as (w1 & evs & -> & _ & Hout & _).
  exact Hout.
Qed.

Lemma progress_printed_regardless_of_verbose_witness :
  verbose self3 = false /\
  stdout (optimize fake_one_case (mkRuntime true [2; 0; 1]) self3 world0).2
    = stdout world0 ++ progress_lines self3.
Proof.
  split; [reflexivity |].
  apply (progress_printed_regardless_of_verbose fake_one_case
           (mkRuntime true [2; 0; 1]) self3 world0).
  reflexivity.
Defined.

(** C10: once the import succeeded, the baseline flag of the shared
    optimizer object is set when [optimize] ends, whatever the outcome;
    in particular after a worker error has made it raise, nothing has
    put the flag back. *)
Theorem baseline_flag_not_rolled_back f rt self w r w' :
  mpi4py_importable rt = true ->
  optimize f rt self w = (r, w') ->
  calc_init_power (optimizer w') = true.
Proof.
  intros Himp Hrun.
  destruct (optimize_run f rt self w Himp) as (w1 & evs & Hrun' & Hopt & _).
  rewrite Hrun in Hrun'. injection Hrun' as -> ->. by rewrite Hopt.
Qed.

Lemma baseline_flag_not_rolled_back_witness :
  calc_init_power (optimizer world0) = false /\
  (optimize fake_one_case (mkRuntime true [4; 3; 1; 0; 2]) self5 world0).1
    = Raise (Exception "RuntimeError" "solver diverged") /\
  calc_init_power
    (optimizer (optimize fake_one_case (mkRuntime true [4; 3; 1; 0; 2]) self5 world0).2)
    = true.
Proof.
  split; [reflexivity |]. split; [vm_compute; reflexivity |].
  apply (baseline_flag_not_rolled_back fake_one_case (mkRuntime true [4; 3; 1; 0; 2])
           self5 world0
           (Raise (Exception "RuntimeError" "solver diverged"))).
  - reflexivity.
  - vm_compute. reflexivity.
Defined.

(** C1: the sweep built without a ti array (wd = [270, 280],
    ws = [8, 9], [ti_array = None]) does not return a table: the 0-d
    array made from [None] cannot be zipped, and [optimize] raises a
    [TypeError] before any case is submitted. *)
Theorem ti_absent_sweep_raises f sched w :
  (optimize f (mkRuntime true sched) self_no_ti w).1 = Raise TypeError /\
  call_count (log (optimize f (mkRuntime true sched) self_no_ti w).2)
    = call_count (log w).
Proof.
  rewrite (optimize_no_ti f (mkRuntime true sched) self_no_ti w eq_refl eq_refl).
  split; [reflexivity |].
  cbn [snd log]. unfold call_count. rewrite List.filter_app, length_app. cbn. lia.
Qed.

(** C3: the same sweep is a valid construction with equal-length arrays
    of size 2, yet [optimize] returns no table for it, of two rows or
    otherwise. *)
Theorem ti_absent_sweep_has_no_rows f sched w :
  equal_lengths self_no_ti /\
  ~ exists df w', optimize f (mkRuntime true sched) self_no_ti w = (Ret df, w').
Proof.
  split; [by split |].
  intros (df & w' & Hrun).
  pose proof (optimize_without_ti f (mkRuntime true sched) self_no_ti w
                eq_refl eq_refl) as Hraise.
  by rewrite Hrun in Hraise.
Qed.


(** * Further properties of optimize *)

(** ** More on zipping and collecting *)

Lemma zip3_length_min xs : forall ys zs,
  length (zip3 xs ys zs) = length xs `min` (length ys `min` length zs).
Proof.
  induction xs as [|x xs IH]; intros [|y ys] [|z zs];
    cbn [zip3 length]; try lia.
  rewrite IH. lia.
Qed.

Lemma zip3_empty xs ys zs :
  xs = [] \/ ys = [] \/ zs = [] -> zip3 xs ys zs = [].
Proof.
  intros [-> | [-> | ->]]; [done | by destruct xs | by destruct xs, ys].
Qed.

(** The loop passes over a prefix of frames and goes on with the rest. *)
Lemma collect_prefix it : forall k df,
  (forall j, j < k -> exists d, it !! j = Some (Some (inr d))) ->
  exists df', collect it df = collect (drop k it) df'.
Proof.
  induction it as [|o it IH]; intros k df Hpre.
  - exists df. by rewrite drop_nil.
  - destruct k as [|k]; [by exists df |].
    destruct (Hpre 0) as [d Hd]; [lia |]. simplify_eq/=.
    apply IH. intros j Hj. apply (Hpre (S j)). lia.
Qed.

Lemma reset_index_rows df :
  snd <$> frame_rows (reset_index df) = snd <$> frame_rows df.
Proof.
  unfold reset_index. cbn [frame_rows].
  apply snd_zip. rewrite !length_fmap, length_seq. lia.
Qed.

Lemma call_count_app l1 l2 :
  call_count (l1 ++ l2) = call_count l1 + call_count l2.
Proof. unfold call_count. by rewrite List.filter_app, length_app. Qed.

Lemma call_count_submissions o tasks : forall i,
  call_count (submissions o i tasks) = 0.
Proof.
  induction tasks as [|[[wd ws] ti] rest IH]; intros i; [done |].
  cbn [submissions]. unfold call_count in *. cbn. apply IH.
Qed.

Lemma call_count_calls (calls : list nat) :
  call_count (EvCall <$> calls) = length calls.
Proof.
  unfold call_count. induction calls as [|i calls IH]; [done |].
  cbn. by rewrite IH.
Qed.

Lemma call_count_release r : call_count (release_events r) = 0.
Proof. by destruct r. Qed.

(** Distinct indices below [n] are at most [n]; all of them are [n]. *)
Lemma distinct_below_length (calls : list nat) n :
  NoDup calls -> (forall i, i ∈ calls -> i < n) -> length calls <= n.
Proof.
  intros Hnd Hlt. rewrite <- (length_seq n 0).
  apply submseteq_length, NoDup_submseteq; [done |].
  intros i Hi. apply elem_of_seq. specialize (Hlt i Hi). lia.
Qed.

Lemma distinct_all_below_length (calls : list nat) n :
  NoDup calls -> (forall i, i ∈ calls <-> i < n) -> length calls = n.
Proof.
  intros Hnd Hiff. rewrite <- (length_seq n 0).
  apply Permutation_length, NoDup_Permutation; [done | apply NoDup_seq |].
  intros i. rewrite Hiff, elem_of_seq. lia.
Qed.

(** ** What the table is made of *)

(** X1: whatever frames the cases yield (of one row, several or none,
    with whatever columns) and whatever the lengths of the arrays, the
    table holds the rows of the per-case frames of the zipped tuples, in
    input order and no others, each with all its cells unchanged, under
    fresh labels 0, 1, ...  ([append] may add NaN cells to a row for the
    columns only other rows have.) *)
Theorem table_carries_case_frames f rt self w tis :
  mpi4py_importable rt = true ->
  ti_array self = Some tis ->
  all_complete rt (length (zip3 (wd_array self) (ws_array self) tis)) ->
  all_cases_succeed f self tis ->
  exists df w',
    optimize f rt self w = (Ret df, w') /\
    Forall2 (fun case_row table_row : gmap string cell => case_row ⊆ table_row)
      (snd <$> (zip3 (wd_array self) (ws_array self) tis
                  ≫= case_rows (f self (mkYawOpt true))))
      (snd <$> frame_rows df) /\
    df_index df = Z.of_nat <$> seq 0 (df_len df).
Proof.
  intros Himp Hti Hall Hok.
  destruct (optimize_run f rt self w Himp) as (w' & evs & Hrun & _).
  destruct (optimize_success f rt self tis Hti Hall Hok) as (df0 & Hout & Hrows).
  exists (reset_index df0), w'. split; [by rewrite Hrun, Hout |]. split.
  - rewrite reset_index_rows. apply Forall2_fmap.
    eapply Forall2_impl; [exact Hrows |]. by intros r r' [_ Hsub].
  - by rewrite reset_index_index, reset_index_len.
Qed.

Lemma self_ragged_all_complete b : all_complete (mkRuntime b [1; 0]) 2.
Proof.
  intros i Hi. cbn [completion_order].
  destruct i as [|[|i]]; [set_solver.. | lia].
Qed.

Lemma self_ragged_cases_succeed :
  all_cases_succeed fake_one_case self_ragged [0.0625; 0.125; 0.25]%float.
Proof.
  unfold all_cases_succeed. apply Forall_forall.
  repeat constructor; eexists; reflexivity.
Qed.

Lemma self_ragged_frames_succeed :
  all_cases_succeed fake_frames self_ragged [0.0625; 0.125; 0.25]%float.
Proof.
  unfold all_cases_succeed. apply Forall_forall.
  repeat constructor; eexists; reflexivity.
Qed.

Lemma table_carries_case_frames_witness :
  exists df w',
    optimize fake_frames (mkRuntime true [1; 0]) self_ragged world0 = (Ret df, w') /\
    Forall2 (fun case_row table_row : gmap string cell => case_row ⊆ table_row)
      (snd <$> (zip3 (wd_array self_ragged) (ws_array self_ragged)
                     [0.0625; 0.125; 0.25]%float
                  ≫= case_rows (fake_frames self_ragged (mkYawOpt true))))
      (snd <$> frame_rows df) /\
    df_index df = Z.of_nat <$> seq 0 (df_len df).
Proof.
  apply (table_carries_case_frames fake_frames (mkRuntime true [1; 0])
           self_ragged world0 [0.0625; 0.125; 0.25]%float).
  - reflexivity.
  - reflexivity.
  - apply self_ragged_all_complete.
  - apply self_ragged_frames_succeed.
Defined.

(** X2: [optimize] checks no lengths itself.  Arrays of different
    lengths are cut to the shortest by the zip of the map: with one row
    per case the table has as many rows as the shortest array holds
    entries, while the banner still reports the length of the wd array. *)
Theorem ragged_arrays_are_truncated f rt self w tis :
  mpi4py_importable rt = true ->
  ti_array self = Some tis ->
  all_complete rt (length (wd_array self)) ->
  all_cases_succeed f self tis ->
  one_row_per_case f self ->
  exists df w',
    optimize f rt self w = (Ret df, w') /\
    df_len df = length (wd_array self)
                  `min` (length (ws_array self) `min` length tis) /\
    stdout w' = stdout w ++ progress_lines self.
Proof.
  intros Himp Hti Hall Hok Hone.
  pose proof (zip3_length_min (wd_array self) (ws_array self) tis) as Hlen.
  destruct (optimize_run f rt self w Himp) as (w' & evs & Hrun & _ & Hout & _).
  destruct (optimize_success f rt self tis Hti) as (df0 & Hres & Hrows);
    [intros i Hi; apply Hall; lia | done |].
  exists (reset_index df0), w'. split; [by rewrite Hrun, Hres |].
  split; [| done].
  rewrite reset_index_len, <- Hlen. unfold df_len.
  rewrite <- (Forall2_length _ _ _ Hrows).
  destruct (rows_one_per_case (f self (mkYawOpt true)) (fun _ _ => True)
              (zip3 (wd_array self) (ws_array self) tis)) as [Hn _];
    [| exact Hn].
  intros [[wd ws] ti] Ht. destruct (Hok _ Ht) as [d Hd].
  unfold case_rows. rewrite Hd. split.
  - by apply (Hone (mkYawOpt true) wd ws ti).
  - by apply Forall_true.
Qed.

Lemma ragged_arrays_are_truncated_witness :
  exists df w',
    optimize fake_one_case (mkRuntime true [2; 1; 0]) self_ragged world0
      = (Ret df, w') /\
    df_len df = 3 `min` (2 `min` 3) /\
    stdout w' = stdout world0 ++ progress_lines self_ragged.
Proof.
  apply (ragged_arrays_are_truncated fake_one_case (mkRuntime true [2; 1; 0])
           self_ragged world0 [0.0625; 0.125; 0.25]%float).
  - reflexivity.
  - reflexivity.
  - intros i Hi. cbn [completion_order].
    destruct i as [|[|[|i]]]; [set_solver.. | cbn in Hi; lia].
  - apply self_ragged_cases_succeed.
  - apply fake_one_row.
Defined.

(** X3: a sweep in which one of the three arrays is empty returns the
    empty table.  The pool is still acquired and released, the banner
    printed and the baseline flag forced, but nothing is submitted and
    the per-case optimizer never runs, whatever the runtime schedules. *)
Theorem empty_sweep_returns_empty_table f rt self w tis :
  mpi4py_importable rt = true ->
  ti_array self = Some tis ->
  wd_array self = [] \/ ws_array self = [] \/ tis = [] ->
  optimize f rt self w
  = (Ret pd_DataFrame,
     mkWorld (mkYawOpt true) (stdout w ++ progress_lines self)
             (live_pools w) (log w ++ [EvAcquire; EvRelease])).
Proof.
  intros Himp Hti Hempty.
  destruct (optimize_log f rt self w tis Himp Hti) as (calls & _ & Hin & ->).
  assert (Hout : optimize_outcome f rt self = Ret pd_DataFrame).
  { unfold optimize_outcome, result_iterator. rewrite Hti.
    by rewrite (zip3_empty _ _ _ Hempty). }
  assert (calls = []) as ->.
  { apply elem_of_nil_inv. intros i Hi. apply Hin in Hi as [_ Hi].
    rewrite (zip3_empty _ _ _ Hempty) in Hi. cbn in Hi. lia. }
  rewrite Hout, (zip3_empty _ _ _ Hempty). reflexivity.
Qed.

Lemma empty_sweep_returns_empty_table_witness :
  optimize fake_one_case (mkRuntime true [3; 0]) self_empty world0
  = (Ret pd_DataFrame,
     mkWorld (mkYawOpt true) (stdout world0 ++ progress_lines self_empty)
             (live_pools world0) (log world0 ++ [EvAcquire; EvRelease])).
Proof.
  apply (empty_sweep_returns_empty_table fake_one_case (mkRuntime true [3; 0])
           self_empty world0 []).
  - reflexivity.
  - reflexivity.
  - left. reflexivity.
Defined.

(** ** What the outcome depends on *)

Lemma zip3_length_le xs ys zs : length (zip3 xs ys zs) <= length xs.
Proof. rewrite zip3_length_min. lia. Qed.

(** X4: the outcome of a call, table or exception, is the same for any
    two completion orders in which every task completes, and for any two
    states at entry (baseline flag, standard output, pools, log): it is
    decided by the arrays and the per-case optimizer alone. *)
Theorem outcome_independent_of_order_and_entry_state f rt1 rt2 self w1 w2 :
  mpi4py_importable rt1 = true ->
  mpi4py_importable rt2 = true ->
  all_complete rt1 (length (wd_array self)) ->
  all_complete rt2 (length (wd_array self)) ->
  (optimize f rt1 self w1).1 = (optimize f rt2 self w2).1.
Proof.
  intros Himp1 Himp2 Hall1 Hall2.
  destruct (optimize_run f rt1 self w1 Himp1) as (w1' & evs1 & -> & _).
  destruct (optimize_run f rt2 self w2 Himp2) as (w2' & evs2 & -> & _).
  cbn [fst]. unfold optimize_outcome, result_iterator.
  destruct (ti_array self) as [tis|]; [| done].
  pose proof (zip3_length_le (wd_array self) (ws_array self) tis) as Hle.
  assert (Hall1' : forall i,
            i < length (zip3 (wd_array self) (ws_array self) tis) ->
            i ∈ completion_order rt1) by (intros i Hi; apply Hall1; lia).
  assert (Hall2' : forall i,
            i < length (zip3 (wd_array self) (ws_array self) tis) ->
            i ∈ completion_order rt2) by (intros i Hi; apply Hall2; lia).
  cbn zeta. rewrite !iterator_complete by done.
  by rewrite (proj2 (hung_false _ _) Hall1'), (proj2 (hung_false _ _) Hall2').
Qed.

Lemma outcome_independent_of_order_and_entry_state_witness :
  (optimize fake_one_case (mkRuntime true [4; 3; 1; 0; 2]) self5 world0).1
  = (optimize fake_one_case (mkRuntime true [0; 1; 1; 2; 9; 3; 4]) self5
       (mkWorld (mkYawOpt true) ["earlier output"] 2 [EvCall 5])).1.
Proof.
  apply (outcome_independent_of_order_and_entry_state fake_one_case
           (mkRuntime true [4; 3; 1; 0; 2]) (mkRuntime true [0; 1; 1; 2; 9; 3; 4])
           self5 world0 (mkWorld (mkYawOpt true) ["earlier output"] 2 [EvCall 5])).
  - reflexivity.
  - reflexivity.
  - intros i Hi. cbn [completion_order].
    destruct i as [|[|[|[|[|i]]]]]; [set_solver.. | cbn in Hi; lia].
  - intros i Hi. cbn [completion_order].
    destruct i as [|[|[|[|[|i]]]]]; [set_solver.. | cbn in Hi; lia].
Defined.

(** X9: the exception that reaches the caller is that of the first
    failing case in submission order, not of the first to fail in time:
    if case [k] raises [e], the cases before it do not raise and every
    task completes, the call raises [e], also when a later case fails
    and completes before case [k] does. *)
Theorem first_failure_in_submission_order_wins f rt self w tis k t e :
  mpi4py_importable rt = true ->
  ti_array self = Some tis ->
  zip3 (wd_array self) (ws_array self) tis !! k = Some t ->
  apply_task (f self (mkYawOpt true)) t = inl e ->
  all_complete rt (length (zip3 (wd_array self) (ws_array self) tis)) ->
  (forall j tj, j < k ->
     zip3 (wd_array self) (ws_array self) tis !! j = Some tj ->
     exists d, apply_task (f self (mkYawOpt true)) tj = inr d) ->
  (optimize f rt self w).1 = Raise e.
Proof.
  intros Himp Hti Hk He Hall Hbefore.
  destruct (optimize_run f rt self w Himp) as (w' & evs & -> & _).
  cbn [fst]. unfold optimize_outcome. rewrite Hti. cbn zeta.
  set (tasks := zip3 (wd_array self) (ws_array self) tis) in *.
  set (fn := f self (mkYawOpt true)) in *.
  pose proof (lookup_lt_Some _ _ _ Hk) as Hklt.
  rewrite (proj2 (hung_false _ _) Hall).
  assert (Hit : result_iterator f rt self tis !! k = Some (Some (inl e))).
  { unfold result_iterator. cbn zeta. fold tasks fn.
    rewrite (iterator_lookup fn tasks _ k t Hk); [by rewrite He | by apply Hall]. }
  destruct (collect_prefix (result_iterator f rt self tis) k pd_DataFrame)
    as [df' ->].
  - intros j Hj.
    destruct (lookup_lt_is_Some_2 tasks j) as [tj Htj]; [lia |].
    destruct (Hbefore j tj Hj Htj) as [d Hd]. exists d.
    unfold result_iterator. cbn zeta. fold tasks fn.
    rewrite (iterator_lookup fn tasks _ j tj Htj); [by rewrite Hd | apply Hall; lia].
  - rewrite <- (take_drop_middle _ _ _ Hit) at 1.
    rewrite drop_app_length'; [done |].
    rewrite length_take. apply lookup_lt_Some in Hit. lia.
Qed.

Lemma first_failure_in_submission_order_wins_witness :
  (optimize fake_two_errors (mkRuntime true [2; 1; 0]) self_two_errors world0).1
  = Raise (Exception "RuntimeError" "solver diverged").
Proof.
  apply (first_failure_in_submission_order_wins fake_two_errors
           (mkRuntime true [2; 1; 0]) self_two_errors world0
           [0.0625; 0.125; 0.25]%float
           1 (280, 13, 0.125)%float).
  - reflexivity.
  - reflexivity.
  - reflexivity.
  - reflexivity.
  - intros j Hj. cbn [completion_order].
    destruct j as [|[|[|j]]]; [set_solver.. | cbn in Hj; lia].
  - intros j tj Hj Htj.
    destruct j as [|j]; [| lia]. simplify_eq/=. eexists; reflexivity.
Defined.

(** X5: no timeout is given to the map.  If the task of case [k] never
    completes while the cases before it complete without raising, the
    call never ends: it neither returns nor raises, and the pool it
    acquired stays live. *)
Theorem unfinished_task_blocks f rt self w tis k :
  mpi4py_importable rt = true ->
  ti_array self = Some tis ->
  k < length (zip3 (wd_array self) (ws_array self) tis) ->
  k ∉ completion_order rt ->
  (forall j, j < k -> j ∈ completion_order rt) ->
  (forall j tj, j < k ->
     zip3 (wd_array self) (ws_array self) tis !! j = Some tj ->
     exists d, apply_task (f self (mkYawOpt true)) tj = inr d) ->
  (optimize f rt self w).1 = Block /\
  live_pools (optimize f rt self w).2 = S (live_pools w).
Proof.
  intros Himp Hti Hk Hnever Hsched Hbefore.
  destruct (optimize_log f rt self w tis Himp Hti) as (calls & _ & _ & ->).
  cbn [fst snd live_pools].
  set (tasks := zip3 (wd_array self) (ws_array self) tis) in *.
  set (fn := f self (mkYawOpt true)) in *.
  assert (Hout : optimize_outcome f rt self = Block); [| by rewrite Hout].
  unfold optimize_outcome. rewrite Hti. cbn zeta. fold tasks.
  assert (Hit : result_iterator f rt self tis !! k = Some None).
  { unfold result_iterator. cbn zeta. fold tasks fn.
    rewrite list_lookup_fmap, lookup_seq_lt by done.
    cbn [fmap option_fmap option_map plus]. unfold future_result.
    by rewrite decide_False. }
  destruct (collect_prefix (result_iterator f rt self tis) k pd_DataFrame)
    as [df' ->].
  - intros j Hj.
    destruct (lookup_lt_is_Some_2 tasks j) as [tj Htj]; [lia |].
    destruct (Hbefore j tj Hj Htj) as [d Hd]. exists d.
    unfold result_iterator. cbn zeta. fold tasks fn.
    rewrite (iterator_lookup fn tasks _ j tj Htj); [by rewrite Hd | by apply Hsched].
  - rewrite <- (take_drop_middle _ _ _ Hit) at 1.
    rewrite drop_app_length'; [done |].
    rewrite length_take. apply lookup_lt_Some in Hit. lia.
Qed.

Lemma unfinished_task_blocks_witness :
  (optimize fake_one_case (mkRuntime true [2; 0]) self3 world0).1 = Block /\
  live_pools (optimize fake_one_case (mkRuntime true [2; 0]) self3 world0).2
    = S (live_pools world0).
Proof.
  apply (unfinished_task_blocks fake_one_case (mkRuntime true [2; 0]) self3 world0
           [0.0625; 0.125; 0.25]%float 1).
  - reflexivity.
  - reflexivity.
  - cbn. lia.
  - cbn [completion_order]. intros Hin.
    repeat (apply elem_of_cons in Hin as [Heq | Hin]; [discriminate |]).
    by apply elem_of_nil in Hin.
  - intros j Hj. cbn [completion_order].
    destruct j as [|j]; [set_solver | lia].
  - intros j tj Hj Htj.
    destruct j as [|j]; [| lia]. simplify_eq/=. eexists; reflexivity.
Defined.

(** ** What the pool is asked to do *)

(** X6: the per-case optimizer is never called twice for one condition:
    whatever the runtime schedules (repeated or unknown indices
    included), a call adds at most as many per-case calls as there are
    zipped tuples, and exactly that many when every task completes. *)
Theorem one_call_per_condition f rt self w tis :
  mpi4py_importable rt = true ->
  ti_array self = Some tis ->
  call_count (log (optimize f rt self w).2)
    <= call_count (log w) + length (zip3 (wd_array self) (ws_array self) tis) /\
  (all_complete rt (length (zip3 (wd_array self) (ws_array self) tis)) ->
   call_count (log (optimize f rt self w).2)
     = call_count (log w) + length (zip3 (wd_array self) (ws_array self) tis)).
Proof.
  intros Himp Hti.
  destruct (optimize_log f rt self w tis Himp Hti) as (calls & Hnd & Hin & ->).
  cbn [snd log].
  assert (Hcount : forall r,
            call_count (log w ++ EvAcquire
              :: submissions (mkYawOpt true) 0
                   (zip3 (wd_array self) (ws_array self) tis)
              ++ (EvCall <$> calls) ++ release_events r)
            = call_count (log w) + length calls).
  { intros r. change (EvAcquire :: ?l) with ([EvAcquire] ++ l).
    rewrite !call_count_app, call_count_submissions, call_count_calls,
      call_count_release. cbn. lia. }
  rewrite Hcount. split.
  - apply Nat.add_le_mono_l, distinct_below_length; [done |].
    intros i Hi. by apply Hin in Hi as [_ Hi].
  - intros Hall. f_equal. apply distinct_all_below_length; [done |].
    intros i. rewrite Hin. split; [tauto |]. intros Hi. split; [by apply Hall | done].
Qed.

Lemma one_call_per_condition_witness :
  call_count
    (log (optimize fake_one_case (mkRuntime true [0; 1; 1; 2; 9; 3; 4]) self5 world0).2)
    <= call_count (log world0)
       + length (zip3 (wd_array self5) (ws_array self5)
                      [0.0625; 0.0625; 0.125; 0.125; 0.25]%float) /\
  (all_complete (mkRuntime true [0; 1; 1; 2; 9; 3; 4])
     (length (zip3 (wd_array self5) (ws_array self5)
                   [0.0625; 0.0625; 0.125; 0.125; 0.25]%float)) ->
   call_count
     (log (optimize fake_one_case (mkRuntime true [0; 1; 1; 2; 9; 3; 4]) self5 world0).2)
     = call_count (log world0)
       + length (zip3 (wd_array self5) (ws_array self5)
                      [0.0625; 0.0625; 0.125; 0.125; 0.25]%float)).
Proof.
  apply (one_call_per_condition fake_one_case
           (mkRuntime true [0; 1; 1; 2; 9; 3; 4]) self5 world0
           [0.0625; 0.0625; 0.125; 0.125; 0.25]%float).
  - reflexivity.
  - reflexivity.
Defined.

(** ** The sweep without a ti array, in general *)

(** X8: for every object whose [ti_array] is [None] the call raises
    [TypeError] from inside the [with] block.  By then the banner is
    printed and the baseline flag of the shared optimizer forced; the
    pool is acquired and released again with nothing submitted. *)
Theorem sweep_without_ti_raises_after_side_effects f rt self w :
  mpi4py_importable rt = true ->
  ti_array self = None ->
  optimize f rt self w
  = (Raise TypeError,
     mkWorld (mkYawOpt true) (stdout w ++ progress_lines self)
             (live_pools w) (log w ++ [EvAcquire; EvRelease])).
Proof. apply optimize_no_ti. Qed.

Lemma sweep_without_ti_raises_after_side_effects_witness :
  optimize fake_one_case (mkRuntime true [1; 0]) self_no_ti world0
  = (Raise TypeError,
     mkWorld (mkYawOpt true) (stdout world0 ++ progress_lines self_no_ti)
             (live_pools world0) (log world0 ++ [EvAcquire; EvRelease])).
Proof.
  apply (sweep_without_ti_raises_after_side_effects fake_one_case
           (mkRuntime true [1; 0]) self_no_ti world0).
  - reflexivity.
  - reflexivity.
Defined.
